(** * Ion-trap simulator: the numeric kernel of [IonTrapVisualizer.tsx]

    The class [IonTrapSimulator] (constructor, [simulate], [isStable]) is
    embedded over the kernel's binary64 floats, which are the numbers
    JavaScript computes with: every [+], [*], [/], comparison and
    [Math.abs] of the source is the IEEE-754 operation of [PrimFloat].

    The only operation of the source that IEEE-754 does not fix is
    [Math.cos]: ECMAScript calls its result "implementation-approximated".
    The development is therefore parametric in [cos]; closed examples
    instantiate it with [cos_approx] below and use inputs on which the
    outcome does not depend on the approximation. *)

From Stdlib Require Import Floats ZArith Bool Lia.
From stdpp Require Import base option list.

Set Warnings "-inexact-float".
Set Default Proof Using "Type".

Local Open Scope float_scope.

(** ** JavaScript values *)

Module JS.

(** [ToBoolean] on a number: [+0], [-0] and [NaN] are falsy. *)
Definition falsy (v : float) : bool := (v =? 0) || is_nan v.

(** [o.f || d] for an optional numeric property [f]: the default is taken
    when the property is absent ([undefined]) or falsy. *)
Definition or_default (v : option float) (d : float) : float :=
  match v with
  | Some a => if falsy a then d else a
  | None => d
  end.

End JS.

(** A cosine used to run examples, meant for arguments of moderate size.
    Reduction to [[-pi, pi]] by the nearest multiple of [2 pi], then the
    Taylor polynomial of degree 20.  It maps [+0] and [-0] to [1] and
    [NaN], [+oo], [-oo] to [NaN], as ECMAScript requires of [Math.cos]. *)
Definition round_nearest (v : float) : float :=
  (v + 6755399441055744) - 6755399441055744.

Definition cos_approx (v : float) : float :=
  let n := round_nearest (v / 6.283185307179586) in
  let r := v - n * 6.283185307179586 in
  let r2 := r * r in
  1 - r2 / 2 * (1 - r2 / 12 * (1 - r2 / 30 * (1 - r2 / 56 * (1 - r2 / 90 *
  (1 - r2 / 132 * (1 - r2 / 182 * (1 - r2 / 240 * (1 - r2 / 306 *
  (1 - r2 / 380))))))))).

(** ** Data *)

Module Point.
(** One element of the array [simulate] returns. *)
Record TrajectoryPoint := mk {
  t : float;       (* microseconds *)
  x : float;       (* millimetres *)
  y : float;
  stable : bool
}.
End Point.
Abbreviation TrajectoryPoint := Point.TrajectoryPoint.

Module Params.
(** The constructor argument [{ U?, V?, omega? }]. *)
Record t := mk {
  U : option float;
  V : option float;
  omega : option float
}.
End Params.

Module Init.
(** The first argument of [simulate]: [{ x?, y?, vx?, vy? }]. *)
Record t := mk {
  x : option float;
  y : option float;
  vx : option float;
  vy : option float
}.
End Init.

Module Kin.
(** The local variables [x], [y], [vx], [vy], [t] of [simulate]. *)
Record state := mk {
  x : float;       (* metres *)
  y : float;
  vx : float;
  vy : float;
  t : float        (* seconds *)
}.
End Kin.

(** The instance fields.  [e], [m] and [r0] are initialised to constants
    and never assigned, so they are definitions. *)
Definition e : float := 1.60217663e-19.
Definition m : float := 1.67262192e-27.
Definition r0 : float := 1e-2.

Module Sim.
Record IonTrapSimulator := mk {
  U : float;
  V : float;
  omega : float;
  ax : float;
  qx : float;
  ay : float;
  qy : float;
  (* The field aliases an element of the array of the last run; it is
     held here by value, read once [simulate] has finished mutating. *)
  lastStablePosition : option TrajectoryPoint
}.
End Sim.
Abbreviation IonTrapSimulator := Sim.IonTrapSimulator.

(** ** The constructor *)

(** The divisor both coefficient formulas share. *)
Definition denominator (omega : float) : float :=
  m * r0 * r0 * omega * omega.

Definition calculateAx (U omega : float) : float :=
  (8 * e * U) / denominator omega.

Definition calculateQx (V omega : float) : float :=
  (-4 * e * V) / denominator omega.

Definition constructor (params : Params.t) : IonTrapSimulator :=
  let U := JS.or_default (Params.U params) 0 in
  let V := JS.or_default (Params.V params) 0 in
  let omega := JS.or_default (Params.omega params) 1e6 in
  let ax := calculateAx U omega in
  let qx := calculateQx V omega in
  {| Sim.U := U; Sim.V := V; Sim.omega := omega;
     Sim.ax := ax; Sim.qx := qx; Sim.ay := - ax; Sim.qy := - qx;
     Sim.lastStablePosition := None |}.

(** ** The integrator *)

(** Which way the [while] loop was left: by [break] or by its guard. *)
Inductive Exit := Escape | TimeUp.

Section Simulate.

Variable cos : float -> float.

Definition calculateForceX (this : IonTrapSimulator) (x t : float) : float :=
  - ((2 * e) / (r0 * r0)) *
  (Sim.U this + Sim.V this * cos (Sim.omega this * t)) *
  x.

Definition calculateForceY (this : IonTrapSimulator) (y t : float) : float :=
  ((2 * e) / (r0 * r0)) *
  (Sim.U this + Sim.V this * cos (Sim.omega this * t)) *
  y.

(** The first half of the loop body: forces, accelerations, then the
    velocity and position updates.  [t] is left as it is. *)
Definition euler (this : IonTrapSimulator) (dt : float) (k : Kin.state) : Kin.state :=
  let fx := calculateForceX this (Kin.x k) (Kin.t k) in
  let fy := calculateForceY this (Kin.y k) (Kin.t k) in
  let ax := fx / m in
  let ay := fy / m in
  let vx := Kin.vx k + ax * dt in
  let vy := Kin.vy k + ay * dt in
  let x := Kin.x k + vx * dt in
  let y := Kin.y k + vy * dt in
  Kin.mk x y vx vy (Kin.t k).

(** The object pushed on the array. *)
Definition point (k : Kin.state) : TrajectoryPoint :=
  {| Point.t := Kin.t k * 1e6;
     Point.x := Kin.x k * 1e3;
     Point.y := Kin.y k * 1e3;
     Point.stable := true |}.

(** [Math.abs(x) > this.r0 || Math.abs(y) > this.r0] *)
Definition outside (k : Kin.state) : bool :=
  (r0 <? abs (Kin.x k)) || (r0 <? abs (Kin.y k)).

(** [t += dt] *)
Definition tick (dt : float) (k : Kin.state) : Kin.state :=
  Kin.mk (Kin.x k) (Kin.y k) (Kin.vx k) (Kin.vy k) (Kin.t k + dt).

(** [trajectory[i].stable = false] *)
Definition mark_unstable (p : TrajectoryPoint) : TrajectoryPoint :=
  {| Point.t := Point.t p; Point.x := Point.x p; Point.y := Point.y p;
     Point.stable := false |}.

(** The [while (t < t_max)] loop.  [fuel] bounds the number of iterations;
    [None] says the loop was still running when it was used up.  The
    result is the array and the value of [this.lastStablePosition].

    On [break] the source first stores a reference to the element at
    [Math.max(0, length - 2)] and then clears the flag of the last element.
    When the array has one element the two are the same object, so the
    stored position is read here after the flag is cleared.  Both indices
    are computed on integers, as in the source, where [length - 2] is [-1]
    for a one-element array. *)
Fixpoint simulate_loop (fuel : nat) (this : IonTrapSimulator)
    (t_max dt : float) (k : Kin.state) (trajectory : list TrajectoryPoint)
    : option (list TrajectoryPoint * option TrajectoryPoint) :=
  match fuel with
  | O => None
  | S fuel' =>
    if Kin.t k <? t_max then
      let k' := euler this dt k in
      let trajectory := trajectory ++ [point k'] in
      if outside k' then
        let trajectory :=
          alter mark_unstable
            (Z.to_nat (Z.of_nat (length trajectory) - 1)) trajectory in
        Some (trajectory,
              trajectory !!
                Z.to_nat (Z.max 0 (Z.of_nat (length trajectory) - 2)))
      else simulate_loop fuel' this t_max dt (tick dt k') trajectory
    else Some (trajectory, None)
  end.

Definition initial (initialConditions : Init.t) : Kin.state :=
  {| Kin.x := JS.or_default (Init.x initialConditions) 1e-3;
     Kin.y := JS.or_default (Init.y initialConditions) 1e-3;
     Kin.vx := JS.or_default (Init.vx initialConditions) 0;
     Kin.vy := JS.or_default (Init.vy initialConditions) 0;
     Kin.t := 0 |}.

Definition set_lastStablePosition (this : IonTrapSimulator)
    (v : option TrajectoryPoint) : IonTrapSimulator :=
  {| Sim.U := Sim.U this; Sim.V := Sim.V this; Sim.omega := Sim.omega this;
     Sim.ax := Sim.ax this; Sim.qx := Sim.qx this;
     Sim.ay := Sim.ay this; Sim.qy := Sim.qy this;
     Sim.lastStablePosition := v |}.

(** [simulate]: the simulator after the call and the returned array. *)
Definition simulate (fuel : nat) (this : IonTrapSimulator)
    (initialConditions : Init.t) (t_max dt : float)
    : option (IonTrapSimulator * list TrajectoryPoint) :=
  let k := initial initialConditions in
  let this := set_lastStablePosition this None in
  match simulate_loop fuel this t_max dt k [] with
  | Some (trajectory, lsp) =>
      Some (set_lastStablePosition this lsp, trajectory)
  | None => None
  end.

(** *** The loop, read without the array

    The next four definitions describe the control flow of the loop in
    terms of the kinematic variables alone; the theorems below relate
    the array and [lastStablePosition] to them. *)

(** A whole iteration that does not [break]. *)
Definition next (this : IonTrapSimulator) (dt : float) (k : Kin.state)
    : Kin.state :=
  tick dt (euler this dt k).

(** The variables after the position update of iterations [0 .. n-1]. *)
Fixpoint recorded (this : IonTrapSimulator) (dt : float) (n : nat)
    (k : Kin.state) : list Kin.state :=
  match n with
  | O => []
  | S n' => euler this dt k :: recorded this dt n' (next this dt k)
  end.

(** The variables right after the position update of iteration [i], had no
    earlier iteration left the loop. *)
Definition moved (this : IonTrapSimulator) (dt : float)
    (initialConditions : Init.t) (i : nat) : Kin.state :=
  euler this dt (Nat.iter i (next this dt) (initial initialConditions)).

(** How the loop is left and after how many iterations. *)
Fixpoint run (fuel : nat) (this : IonTrapSimulator) (t_max dt : float)
    (k : Kin.state) : option (Exit * nat) :=
  match fuel with
  | O => None
  | S fuel' =>
    if Kin.t k <? t_max then
      if outside (euler this dt k) then Some (Escape, 1%nat)
      else
        match run fuel' this t_max dt (next this dt k) with
        | Some (ex, n) => Some (ex, S n)
        | None => None
        end
    else Some (TimeUp, 0%nat)
  end.

Definition exit_of (fuel : nat) (this : IonTrapSimulator)
    (initialConditions : Init.t) (t_max dt : float) : option Exit :=
  match run fuel this t_max dt (initial initialConditions) with
  | Some (ex, _) => Some ex
  | None => None
  end.

(** The array of a run that breaks in iteration [n]: the points of the
    iterations before it, then the point of iteration [n], marked. *)
Definition escape_array (this : IonTrapSimulator) (dt : float)
    (k : Kin.state) (n : nat) : list TrajectoryPoint :=
  (point <$> recorded this dt n k) ++
  [mark_unstable (point (euler this dt (Nat.iter n (next this dt) k)))].

(** The two shapes of what [simulate] returns: left by the guard after [n]
    iterations, or by [break] in iteration [n]. *)
Inductive simulate_returns (fuel : nat) (this : IonTrapSimulator)
    (ic : Init.t) (t_max dt : float)
    : IonTrapSimulator -> list TrajectoryPoint -> Prop :=
| returns_time_up n :
    run fuel this t_max dt (initial ic) = Some (TimeUp, n) ->
    simulate_returns fuel this ic t_max dt
      (set_lastStablePosition this None)
      (point <$> recorded this dt n (initial ic))
| returns_escape n :
    run fuel this t_max dt (initial ic) = Some (Escape, S n) ->
    simulate_returns fuel this ic t_max dt
      (set_lastStablePosition this
         (escape_array this dt (initial ic) n !! (n - 1)%nat))
      (escape_array this dt (initial ic) n).

(** The simulators a program can hold after [new IonTrapSimulator(params)]:
    the fresh one, and any one left by a call of [simulate] that returned. *)
Inductive reachable (params : Params.t) : IonTrapSimulator -> Prop :=
| reachable_new : reachable params (constructor params)
| reachable_simulate this fuel ic t_max dt this' trajectory :
    reachable params this ->
    simulate fuel this ic t_max dt = Some (this', trajectory) ->
    reachable params this'.

End Simulate.

(** [t] after [n] executions of [t += dt]. *)
Fixpoint accumulate (n : nat) (t dt : float) : float :=
  match n with
  | O => t
  | S n' => accumulate n' (t + dt) dt
  end.

(** The values of [t] for which the guard [t < t_max] holds, in order, when
    no iteration breaks. *)
Fixpoint grid (fuel : nat) (t t_max dt : float) : option (list float) :=
  match fuel with
  | O => None
  | S fuel' =>
    if t <? t_max then
      match grid fuel' (t + dt) t_max dt with
      | Some ts => Some (t :: ts)
      | None => None
      end
    else Some []
  end.

(** ** The stability query *)

Definition isStable (this : IonTrapSimulator) : bool :=
  let stable_x := (abs (Sim.qx this) <? 0.908) && (abs (Sim.ax this) <? 0.237) in
  let stable_y := (abs (Sim.qy this) <? 0.908) && (abs (Sim.ay this) <? 0.237) in
  let theoreticallyStable := stable_x && stable_y in
  let practicallyStable :=
    match Sim.lastStablePosition this with
    | None => true
    | Some p =>
        (abs (Point.x p / 1e3) <? r0 * 0.8) &&
        (abs (Point.y p / 1e3) <? r0 * 0.8)
    end in
  theoreticallyStable && practicallyStable.

(** The analytic test on the x coefficients alone, as the specification
    words it: [|q_x| < 0.908] and [|a_x| < 0.237]. *)
Definition mathieu_test (this : IonTrapSimulator) : bool :=
  (abs (Sim.qx this) <? 0.908) && (abs (Sim.ax this) <? 0.237).

(** The [t] fields of the points pushed by [n] iterations that start at
    time [t]. *)
Fixpoint stamps (n : nat) (t dt : float) : list float :=
  match n with
  | O => []
  | S n' => t * 1e6 :: stamps n' (t + dt) dt
  end.

(** Every element is below every later one. *)
Fixpoint increasing (l : list float) : bool :=
  match l with
  | [] => true
  | a :: l' => forallb (fun b => a <? b) l' && increasing l'
  end.

(** What every implementation of [Math.cos] satisfies, whatever its
    accuracy: a finite argument gives a finite result. *)
Definition finite_on_finite (cos : float -> float) : Prop :=
  forall a, is_finite a = true -> is_finite (cos a) = true.

(** An ion at rest at the shell's initial position, at time [t]. *)
Definition at_rest (t : float) : Kin.state := Kin.mk 1e-3 1e-3 0 0 t.

(** ** The presentation shell *)

(** The [U], [V] and [omega] of the entries of [PRESETS]; the constructor
    does not read their [mode]. *)
Definition preset_optimal : Params.t :=
  Params.mk (Some 0.4) (Some 13.0) (Some 15e6).
Definition preset_pure_rf : Params.t :=
  Params.mk (Some 0) (Some 15.0) (Some 15e6).
Definition preset_high_frequency : Params.t :=
  Params.mk (Some 0.2) (Some 8.0) (Some 20e6).
Definition preset_edge : Params.t :=
  Params.mk (Some 0.5) (Some 15.0) (Some 15e6).

(** The frequencies the shell can put in its parameters: those of the
    presets, and [f * 1e6] for the positions [f] of the frequency slider
    ([min = 1], [max = 10], [step = 0.5]). *)
Definition shell_omegas : list float :=
  [15e6; 20e6] ++
  map (fun f => f * 1e6)
    [1; 1.5; 2; 2.5; 3; 3.5; 4; 4.5; 5; 5.5; 6; 6.5; 7; 7.5; 8; 8.5; 9; 9.5;
     10].

(** The arguments [runSimulation] passes to [simulate]. *)
Definition shell_initial : Init.t :=
  Init.mk (Some 1e-3) (Some 1e-3) (Some 0) (Some 0).
Definition shell_t_max : float := 2e-5.
Definition shell_dt : float := 1e-8.

(** [runSimulation]: the values handed to [setTrajectory], [setIsStable]
    and [setLastStablePoint]. *)
Definition runSimulation (cos : float -> float) (fuel : nat)
    (params : Params.t)
    : option (list TrajectoryPoint * bool * option TrajectoryPoint) :=
  let simulator := constructor params in
  match simulate cos fuel simulator shell_initial shell_t_max shell_dt with
  | Some (simulator, newTrajectory) =>
      Some (newTrajectory, isStable simulator,
            Sim.lastStablePosition simulator)
  | None => None
  end.

(** ** Inputs of the examples *)

(** [new IonTrapSimulator({})] *)
Definition no_params : Params.t := Params.mk None None None.

(** A DC voltage of 1000 V and no RF: the ion is pushed out along [y]. *)
Definition dc_params : Params.t := Params.mk (Some 1000) None None.

(** An RF amplitude far too large for the default frequency. *)
Definition large_V_params : Params.t := Params.mk None (Some 1000) None.

(** A frequency whose square underflows. *)
Definition tiny_omega_params : Params.t :=
  Params.mk (Some 1) (Some 1) (Some 1e-170).

(** An initial position outside the trap. *)
Definition outside_initial : Init.t :=
  Init.mk (Some 1) (Some 1e-3) (Some 0) (Some 0).

(** ** Runs of the examples, evaluated *)

(** [dc_params] on the shell's arguments: the seventh point is out of
    bounds. *)
Definition dc_run_simulator : IonTrapSimulator :=
  Eval vm_compute in
    match simulate cos_approx 8 (constructor dc_params)
            shell_initial shell_t_max shell_dt with
    | Some (this, _) => this
    | None => constructor dc_params
    end.

Definition dc_run_trajectory : list TrajectoryPoint :=
  Eval vm_compute in
    match simulate cos_approx 8 (constructor dc_params)
            shell_initial shell_t_max shell_dt with
    | Some (_, trajectory) => trajectory
    | None => []
    end.

Definition dc_run_last : TrajectoryPoint :=
  Eval vm_compute in
    match last dc_run_trajectory with
    | Some p => p
    | None => point (initial shell_initial)
    end.

(** [dc_params] from [outside_initial]: the first point is out of bounds. *)
Definition outside_run_simulator : IonTrapSimulator :=
  Eval vm_compute in
    match simulate cos_approx 8 (constructor dc_params)
            outside_initial shell_t_max shell_dt with
    | Some (this, _) => this
    | None => constructor dc_params
    end.

Definition outside_run_trajectory : list TrajectoryPoint :=
  Eval vm_compute in
    match simulate cos_approx 8 (constructor dc_params)
            outside_initial shell_t_max shell_dt with
    | Some (_, trajectory) => trajectory
    | None => []
    end.

(** The shell's arguments again, on the simulator the previous run left. *)
Definition rerun_simulator : IonTrapSimulator :=
  Eval vm_compute in
    match simulate cos_approx 20 outside_run_simulator
            shell_initial shell_t_max shell_dt with
    | Some (this, _) => this
    | None => outside_run_simulator
    end.

Definition rerun_trajectory : list TrajectoryPoint :=
  Eval vm_compute in
    match simulate cos_approx 20 outside_run_simulator
            shell_initial shell_t_max shell_dt with
    | Some (_, trajectory) => trajectory
    | None => []
    end.

(** [no_params] for five steps of the shell's [dt]: the ion does not move. *)
Definition quiet_run_simulator : IonTrapSimulator :=
  Eval vm_compute in
    match simulate cos_approx 8 (constructor no_params)
            shell_initial 5e-8 shell_dt with
    | Some (this, _) => this
    | None => constructor no_params
    end.

Definition quiet_run_trajectory : list TrajectoryPoint :=
  Eval vm_compute in
    match simulate cos_approx 8 (constructor no_params)
            shell_initial 5e-8 shell_dt with
    | Some (_, trajectory) => trajectory
    | None => []
    end.

(** ** What the chart draws *)

(** [trajectory.filter((p) => p.stable)], the data of the first series. *)
Definition stable_series (trajectory : list TrajectoryPoint)
    : list TrajectoryPoint :=
  List.filter (fun p => Point.stable p) trajectory.

(** [trajectory.filter((p) => !p.stable)], the data of the second series. *)
Definition unstable_series (trajectory : list TrajectoryPoint)
    : list TrajectoryPoint :=
  List.filter (fun p => negb (Point.stable p)) trajectory.

(** [lastStablePoint && <ReferenceDot x=... y=... />]: the coordinates of
    the dot, when one is drawn. *)
Definition reference_dot (lastStablePoint : option TrajectoryPoint)
    : option (float * float) :=
  match lastStablePoint with
  | Some p => Some (Point.x p, Point.y p)
  | None => None
  end.

(** Zero or a finite nonzero number, on the specification of a float. *)
Definition SFfinite (s : spec_float) : bool :=
  match s with
  | S754_zero _ | S754_finite _ _ _ => true
  | S754_infinity _ | S754_nan => false
  end.

(** ** Further example inputs *)

(** The times at which [no_params] runs for five steps of the shell's
    [dt]. *)
Definition quiet_grid : list float :=
  Eval vm_compute in
    match grid 8 0 5e-8 shell_dt with
    | Some ts => ts
    | None => []
    end.

(** A step so long that [omega * t] overflows in the second iteration. *)
Definition huge_dt : float := 1e303.
Definition huge_t_max : float := 2.5e303.

(** [no_params] with [huge_dt]: from the second iteration on the cosine is
    taken at infinity and the position is NaN. *)
Definition nan_run_simulator : IonTrapSimulator :=
  Eval vm_compute in
    match simulate cos_approx 4 (constructor no_params)
            shell_initial huge_t_max huge_dt with
    | Some (this, _) => this
    | None => constructor no_params
    end.

Definition nan_run_trajectory : list TrajectoryPoint :=
  Eval vm_compute in
    match simulate cos_approx 4 (constructor no_params)
            shell_initial huge_t_max huge_dt with
    | Some (_, trajectory) => trajectory
    | None => []
    end.

(** The one point of a run whose [dt] is NaN. *)
Definition nan_point : TrajectoryPoint :=
  {| Point.t := 0; Point.x := nan; Point.y := nan; Point.stable := true |}.

(** ** Calls that could throw

    Arithmetic on numbers never throws.  The one operation of the class
    that can is a property access on [undefined], which reading an array
    outside its bounds yields: [trajectory[i].stable = false] in
    [simulate], and [this.lastStablePosition.x] in [isStable] should the
    field hold [undefined].  The definitions below follow the same source
    lines as [simulate_loop], [simulate] and [isStable] and keep track of
    that. *)

(** How a call ends when it ends: by returning or by a [TypeError]. *)
Inductive Completion (A : Type) : Type :=
| Normal (a : A)
| Throw.
Arguments Normal {A} a.
Arguments Throw {A}.

(** What [lastStablePosition] can hold: [null], an object, or the
    [undefined] of an array read outside the bounds. *)
Inductive Ref : Type :=
| Null
| Undefined
| Obj (p : TrajectoryPoint).

(** [trajectory[i]] for an integer [i]. *)
Definition array_get (trajectory : list TrajectoryPoint) (i : Z) : Ref :=
  if (i <? 0)%Z then Undefined
  else match trajectory !! Z.to_nat i with
       | Some p => Obj p
       | None => Undefined
       end.

(** The reference a field of the model stands for. *)
Definition ref_of_field (o : option TrajectoryPoint) : Ref :=
  match o with
  | Some p => Obj p
  | None => Null
  end.

Section Checked.

Variable cos : float -> float.

(** The loop of [simulate], with the two array accesses of its [break]
    branch in the order of the source.  The stored reference is read after
    the flag is cleared, as in [simulate_loop]. *)
Fixpoint simulate_loop_checked (fuel : nat) (this : IonTrapSimulator)
    (t_max dt : float) (k : Kin.state) (trajectory : list TrajectoryPoint)
    : option (Completion (list TrajectoryPoint * Ref)) :=
  match fuel with
  | O => None
  | S fuel' =>
    if Kin.t k <? t_max then
      let k' := euler cos this dt k in
      let trajectory := trajectory ++ [point k'] in
      if outside k' then
        let prior := Z.max 0 (Z.of_nat (length trajectory) - 2) in
        let final := (Z.of_nat (length trajectory) - 1)%Z in
        match array_get trajectory final with
        | Obj _ =>
            let trajectory :=
              alter mark_unstable (Z.to_nat final) trajectory in
            Some (Normal (trajectory, array_get trajectory prior))
        | Null | Undefined => Some Throw
        end
      else simulate_loop_checked fuel' this t_max dt (tick dt k') trajectory
    else Some (Normal (trajectory, Null))
  end.

(** [simulate]: the returned array and what [this.lastStablePosition] is
    left holding. *)
Definition simulate_checked (fuel : nat) (this : IonTrapSimulator)
    (initialConditions : Init.t) (t_max dt : float)
    : option (Completion (list TrajectoryPoint * Ref)) :=
  simulate_loop_checked fuel (set_lastStablePosition this None) t_max dt
    (initial initialConditions) [].

End Checked.

(** [isStable] on a simulator whose [lastStablePosition] holds
    [lastStablePosition]: [undefined === null] is false, and the access
    [undefined.x] throws. *)
Definition isStable_checked (this : IonTrapSimulator)
    (lastStablePosition : Ref) : Completion bool :=
  let stable_x := (abs (Sim.qx this) <? 0.908) && (abs (Sim.ax this) <? 0.237) in
  let stable_y := (abs (Sim.qy this) <? 0.908) && (abs (Sim.ay this) <? 0.237) in
  let theoreticallyStable := stable_x && stable_y in
  match lastStablePosition with
  | Null => Normal (theoreticallyStable && true)
  | Obj p =>
      Normal (theoreticallyStable &&
              ((abs (Point.x p / 1e3) <? r0 * 0.8) &&
               (abs (Point.y p / 1e3) <? r0 * 0.8)))
  | Undefined => Throw
  end.

(** * Properties *)

(** ** The loop in normal form *)

Section LoopFacts.

Variable cos : float -> float.
Variable this : IonTrapSimulator.
Variables t_max dt : float.

Local Abbreviation eul := (euler cos this dt).
Local Abbreviation nxt := (next cos this dt).
Local Abbreviation rec := (recorded cos this dt).
Local Abbreviation at_ n k := (Nat.iter n (next cos this dt) k).

Lemma last_index n : Z.to_nat (Z.of_nat n - 1) = (n - 1)%nat.
Proof. lia. Qed.

Lemma prior_index n :
  Z.to_nat (Z.max 0 (Z.of_nat n - 2)) = Nat.max 0 (n - 2)%nat.
Proof. lia. Qed.

Lemma euler_t k : Kin.t (eul k) = Kin.t k.
Proof. reflexivity. Qed.

Lemma next_t k : Kin.t (nxt k) = Kin.t k + dt.
Proof. reflexivity. Qed.

Lemma iter_next_r n k : at_ n (nxt k) = nxt (at_ n k).
Proof. symmetry. exact (Nat.iter_succ_r n nxt k). Qed.

Lemma recorded_length n k : length (rec n k) = n.
Proof.
  revert k; induction n as [|n IH]; intros k; simpl; [reflexivity|].
  f_equal. apply IH.
Qed.

Lemma recorded_snoc n k : rec (S n) k = rec n k ++ [eul (at_ n k)].
Proof.
  revert k; induction n as [|n IH]; intros k; [reflexivity|].
  change (rec (S (S n)) k) with (eul k :: rec (S n) (nxt k)).
  rewrite IH, iter_next_r. reflexivity.
Qed.

Lemma recorded_lookup n k i :
  (i < n)%nat -> rec n k !! i = Some (eul (at_ i k)).
Proof.
  revert k i; induction n as [|n IH]; intros k i Hi; [lia|].
  destruct i as [|i]; [reflexivity|].
  change (rec (S n) k !! S i) with (rec n (nxt k) !! i).
  rewrite IH by lia. rewrite iter_next_r. reflexivity.
Qed.

Lemma iter_next_t n k : Kin.t (at_ n k) = accumulate n (Kin.t k) dt.
Proof.
  revert k; induction n as [|n IH]; intros k; [reflexivity|].
  change (at_ (S n) k) with (nxt (at_ n k)).
  rewrite <- iter_next_r, IH. reflexivity.
Qed.

(** The array and [lastStablePosition] as functions of how the loop is
    left. *)
Lemma simulate_loop_run fuel k acc :
  simulate_loop cos fuel this t_max dt k acc =
  match run cos fuel this t_max dt k with
  | None => None
  | Some (TimeUp, n) => Some (acc ++ (point <$> rec n k), None)
  | Some (Escape, n) =>
      let tr := alter mark_unstable (length acc + n - 1)%nat
                  (acc ++ (point <$> rec n k)) in
      Some (tr, tr !! Nat.max 0 (length tr - 2)%nat)
  end.
Proof.
  revert k acc; induction fuel as [|fuel IH]; intros k acc; [reflexivity|].
  cbn [simulate_loop run]. rewrite last_index, prior_index.
  destruct (Kin.t k <? t_max); [|now rewrite app_nil_r].
  destruct (outside (eul k)).
  - cbn [recorded fmap list_fmap]. rewrite length_app. reflexivity.
  - rewrite IH. fold (nxt k).
    destruct (run cos fuel this t_max dt (nxt k)) as [[[] n]|];
      [| |reflexivity]; cbn [recorded fmap list_fmap]; fold (nxt k);
      rewrite <- !app_assoc; cbn [app]; rewrite ?length_app; cbn [length];
      [|reflexivity].
    replace (length acc + 1 + n - 1)%nat with (length acc + S n - 1)%nat
      by lia.
    reflexivity.
Qed.

(** More fuel does not change a result. *)
Lemma run_fuel_mono fuel fuel' k r :
  run cos fuel this t_max dt k = Some r -> (fuel <= fuel')%nat ->
  run cos fuel' this t_max dt k = Some r.
Proof.
  revert fuel' k r; induction fuel as [|fuel IH]; intros fuel' k r H Hle;
    [discriminate|].
  destruct fuel' as [|fuel']; [lia|].
  cbn [run] in *.
  destruct (Kin.t k <? t_max); [|assumption].
  destruct (outside (eul k)); [assumption|].
  destruct (run cos fuel this t_max dt (nxt k)) as [r'|] eqn:E;
    [|discriminate].
  rewrite (IH fuel' _ _ E) by lia. assumption.
Qed.

Lemma run_deterministic fuel fuel' k r r' :
  run cos fuel this t_max dt k = Some r ->
  run cos fuel' this t_max dt k = Some r' -> r = r'.
Proof.
  intros H H'. destruct (Nat.le_ge_cases fuel fuel') as [Hle|Hle].
  - rewrite (run_fuel_mono _ _ _ _ H Hle) in H'. congruence.
  - rewrite (run_fuel_mono _ _ _ _ H' Hle) in H. congruence.
Qed.

(** Leaving by the guard: [n] iterations ran, none of them broke, and
    the guard failed on the next test. *)
Lemma run_time_up fuel k n :
  run cos fuel this t_max dt k = Some (TimeUp, n) ->
  (forall i, (i < n)%nat ->
     (Kin.t (at_ i k) <? t_max) = true /\ outside (eul (at_ i k)) = false) /\
  (Kin.t (at_ n k) <? t_max) = false.
Proof.
  revert k n; induction fuel as [|fuel IH]; intros k n H; [discriminate|].
  cbn [run] in H.
  destruct (Kin.t k <? t_max) eqn:G.
  - destruct (outside (eul k)) eqn:O; [discriminate|].
    destruct (run cos fuel this t_max dt (nxt k)) as [[ex n']|] eqn:E;
      [|discriminate].
    injection H as -> <-.
    destruct (IH _ _ E) as [Hi Hn]. split.
    + intros [|i] Hlt; [now split|].
      change (at_ (S i) k) with (nxt (at_ i k)).
      rewrite <- iter_next_r. apply Hi. lia.
    + change (at_ (S n') k) with (nxt (at_ n' k)).
      rewrite <- iter_next_r. exact Hn.
  - injection H as <-. split; [intros; lia | exact G].
Qed.

(** Leaving by [break]: the last of the [n >= 1] iterations is the first
    whose position is out of bounds. *)
Lemma run_escape fuel k n :
  run cos fuel this t_max dt k = Some (Escape, n) ->
  exists n', n = S n' /\
    (forall i, (i < n')%nat ->
       (Kin.t (at_ i k) <? t_max) = true /\
       outside (eul (at_ i k)) = false) /\
    (Kin.t (at_ n' k) <? t_max) = true /\
    outside (eul (at_ n' k)) = true.
Proof.
  revert k n; induction fuel as [|fuel IH]; intros k n H; [discriminate|].
  cbn [run] in H.
  destruct (Kin.t k <? t_max) eqn:G; [|discriminate].
  destruct (outside (eul k)) eqn:O.
  - injection H as <-. exists 0%nat. repeat split; try assumption; lia.
  - destruct (run cos fuel this t_max dt (nxt k)) as [[ex n']|] eqn:E;
      [|discriminate].
    injection H as -> <-.
    destruct (IH _ _ E) as (n'' & -> & Hi & Hg & Ho).
    exists (S n''). split; [reflexivity|]. split; [|split].
    + intros [|i] Hlt; [now split|].
      change (at_ (S i) k) with (nxt (at_ i k)).
      rewrite <- iter_next_r. apply Hi. lia.
    + change (at_ (S n'') k) with (nxt (at_ n'' k)).
      rewrite <- iter_next_r. exact Hg.
    + change (at_ (S n'') k) with (nxt (at_ n'' k)).
      rewrite <- iter_next_r. exact Ho.
Qed.

End LoopFacts.

(** ** What [simulate] returns *)

Section SimulateFacts.

Variable cos : float -> float.

(** The loop reads [U], [V] and [omega] only. *)
Lemma euler_set_lastStablePosition this v dt k :
  euler cos (set_lastStablePosition this v) dt k = euler cos this dt k.
Proof. reflexivity. Qed.

Lemma run_set_lastStablePosition fuel this v t_max dt k :
  run cos fuel (set_lastStablePosition this v) t_max dt k =
  run cos fuel this t_max dt k.
Proof.
  revert k; induction fuel as [|fuel IH]; intros k; [reflexivity|].
  cbn [run]. unfold next. rewrite !euler_set_lastStablePosition.
  now rewrite IH.
Qed.

Lemma recorded_set_lastStablePosition this v dt n k :
  recorded cos (set_lastStablePosition this v) dt n k =
  recorded cos this dt n k.
Proof.
  revert k; induction n as [|n IH]; intros k; [reflexivity|].
  cbn [recorded]. unfold next. rewrite !euler_set_lastStablePosition.
  now rewrite IH.
Qed.

Lemma simulate_set_lastStablePosition fuel this v ic t_max dt :
  simulate cos fuel (set_lastStablePosition this v) ic t_max dt =
  simulate cos fuel this ic t_max dt.
Proof. reflexivity. Qed.

Lemma simulate_none fuel this ic t_max dt :
  run cos fuel this t_max dt (initial ic) = None ->
  simulate cos fuel this ic t_max dt = None.
Proof.
  intros H. unfold simulate.
  rewrite simulate_loop_run, run_set_lastStablePosition, H. reflexivity.
Qed.

Lemma simulate_time_up fuel this ic t_max dt n :
  run cos fuel this t_max dt (initial ic) = Some (TimeUp, n) ->
  simulate cos fuel this ic t_max dt =
  Some (set_lastStablePosition this None,
        point <$> recorded cos this dt n (initial ic)).
Proof.
  intros H. unfold simulate.
  rewrite simulate_loop_run, run_set_lastStablePosition, H.
  rewrite recorded_set_lastStablePosition. reflexivity.
Qed.

Lemma escape_array_length this dt k n :
  length (escape_array cos this dt k n) = S n.
Proof.
  unfold escape_array.
  rewrite length_app, length_fmap, recorded_length. simpl. lia.
Qed.

Lemma simulate_escape fuel this ic t_max dt n :
  run cos fuel this t_max dt (initial ic) = Some (Escape, S n) ->
  simulate cos fuel this ic t_max dt =
  Some (set_lastStablePosition this
          (escape_array cos this dt (initial ic) n !! (n - 1)%nat),
        escape_array cos this dt (initial ic) n).
Proof.
  intros H. unfold simulate.
  rewrite simulate_loop_run, run_set_lastStablePosition, H.
  rewrite recorded_set_lastStablePosition.
  cbn zeta. cbn [app length].
  assert (E : alter mark_unstable (0 + S n - 1)%nat
                (point <$> recorded cos this dt (S n) (initial ic)) =
              escape_array cos this dt (initial ic) n).
  { unfold escape_array. rewrite recorded_snoc, fmap_app.
    replace (0 + S n - 1)%nat
      with (length (point <$> recorded cos this dt n (initial ic)) + 0)%nat
      by (rewrite length_fmap, recorded_length; lia).
    rewrite alter_app_r. reflexivity. }
  rewrite E, escape_array_length.
  replace (0 `max` (S n - 2))%nat with (n - 1)%nat by lia.
  reflexivity.
Qed.

Lemma simulate_inv fuel this ic t_max dt this' trajectory :
  simulate cos fuel this ic t_max dt = Some (this', trajectory) <->
  simulate_returns cos fuel this ic t_max dt this' trajectory.
Proof.
  split.
  - intros H.
    destruct (run cos fuel this t_max dt (initial ic)) as [[[] n]|] eqn:R.
    + destruct (run_escape _ _ _ _ _ _ _ R) as (n' & -> & _).
      rewrite (simulate_escape _ _ _ _ _ _ R) in H.
      injection H as <- <-. now constructor.
    + rewrite (simulate_time_up _ _ _ _ _ _ R) in H.
      injection H as <- <-. now constructor.
    + rewrite (simulate_none _ _ _ _ _ R) in H. discriminate.
  - intros [n R|n R]; [now apply simulate_time_up | now apply simulate_escape].
Qed.

End SimulateFacts.

(** [simulate_cases H] splits a returned run [H] into its two shapes and
    rewrites [exit_of] accordingly. *)
Ltac simulate_cases H n R :=
  apply simulate_inv in H; destruct H as [n R|n R];
  unfold exit_of; rewrite ?R.

(** ** Stability flags of the returned points *)

Section Flags.

Variable cos : float -> float.

Lemma points_stable (ks : list Kin.state) :
  Forall (fun p => Point.stable p = true) (point <$> ks).
Proof. induction ks as [|k ks IH]; constructor; [reflexivity | exact IH]. Qed.

Lemma point_stable (ks : list Kin.state) i p :
  (point <$> ks) !! i = Some p -> Point.stable p = true.
Proof.
  intros H. pose proof (points_stable ks) as F.
  rewrite Forall_lookup in F. exact (F _ _ H).
Qed.

Lemma run_time_up_nonempty fuel this t_max dt ic n :
  run cos fuel this t_max dt (initial ic) = Some (TimeUp, n) ->
  (0 <? t_max) = true -> n <> 0%nat.
Proof.
  intros H Hpos ->. apply run_time_up in H as [_ H].
  cbn in H. congruence.
Qed.

(** C1: when no iteration moves the ion out of bounds the loop is left by
    its guard and every point of the returned array is flagged stable;
    when one does, the loop is left there, the point of that iteration is
    the last of the array and the only one flagged unstable.  So a point
    flagged unstable is always the last one.  The array is not empty
    when [0 < t_max]. *)
Theorem simulate_stable_flags fuel this ic t_max dt this' trajectory :
  simulate cos fuel this ic t_max dt = Some (this', trajectory) ->
  ((0 <? t_max) = true -> trajectory <> []) /\
  (forall i p, trajectory !! i = Some p -> Point.stable p = false ->
     S i = length trajectory) /\
  match exit_of cos fuel this ic t_max dt with
  | Some TimeUp =>
      (forall i, (i < length trajectory)%nat ->
         outside (moved cos this dt ic i) = false) /\
      Forall (fun p => Point.stable p = true) trajectory
  | Some Escape =>
      exists earlier final,
        trajectory = earlier ++ [final] /\
        (forall i, (i < length earlier)%nat ->
           outside (moved cos this dt ic i) = false) /\
        outside (moved cos this dt ic (length earlier)) = true /\
        Forall (fun p => Point.stable p = true) earlier /\
        Point.stable final = false
  | None => False
  end.
Proof.
  intros H. simulate_cases H n R.
  - destruct (run_time_up _ _ _ _ _ _ _ R) as [Hbefore _].
    rewrite length_fmap, recorded_length. split; [|split].
    + intros Hpos E. apply (run_time_up_nonempty _ _ _ _ _ _ R Hpos).
      apply (f_equal length) in E.
      now rewrite length_fmap, recorded_length in E.
    + intros i p Hi Hp. now rewrite (point_stable _ _ _ Hi) in Hp.
    + split; [intros i Hi; now apply Hbefore | apply points_stable].
  - destruct (run_escape _ _ _ _ _ _ _ R) as (n' & [= <-] & Hbefore & _ & Hout).
    unfold escape_array. split; [|split].
    + intros _. now destruct (point <$> recorded cos this dt n (initial ic)).
    + intros i p Hi Hp. rewrite length_app. cbn [length].
      apply lookup_app_Some in Hi as [Hi | [Hle Hi]].
      * now rewrite (point_stable _ _ _ Hi) in Hp.
      * apply lookup_lt_Some in Hi. cbn [length] in Hi. lia.
    + eexists _, _. split; [reflexivity|].
      rewrite length_fmap, recorded_length.
      split; [intros i Hi; now apply Hbefore|]. split; [exact Hout|].
      split; [apply points_stable | reflexivity].
Qed.

End Flags.

(** ** The exit of the loop, from the kinematic variables

    The converses of [run_time_up] and [run_escape]: with enough fuel the
    loop is left at the first iteration whose guard fails or whose new
    position is out of bounds. *)

Section LoopExit.

Variable cos : float -> float.
Variable this : IonTrapSimulator.
Variables t_max dt : float.

Local Abbreviation eul := (euler cos this dt).
Local Abbreviation nxt := (next cos this dt).
Local Abbreviation at_ n k := (Nat.iter n (next cos this dt) k).

Lemma run_reaches_time_up n : forall fuel k,
  (n < fuel)%nat ->
  (forall i, (i < n)%nat ->
     (Kin.t (at_ i k) <? t_max) = true /\ outside (eul (at_ i k)) = false) ->
  (Kin.t (at_ n k) <? t_max) = false ->
  run cos fuel this t_max dt k = Some (TimeUp, n).
Proof.
  induction n as [|n IH]; intros fuel k Hf Hi Hn;
    (destruct fuel as [|fuel]; [lia|]); cbn [run].
  - cbn in Hn. now rewrite Hn.
  - destruct (Hi 0%nat ltac:(lia)) as [G O]. cbn in G, O. rewrite G, O.
    rewrite (IH fuel (nxt k)); [reflexivity | lia | |].
    + intros i Hlt. rewrite iter_next_r. apply (Hi (S i)). lia.
    + rewrite iter_next_r. exact Hn.
Qed.

Lemma run_reaches_escape n : forall fuel k,
  (n < fuel)%nat ->
  (forall i, (i < n)%nat ->
     (Kin.t (at_ i k) <? t_max) = true /\ outside (eul (at_ i k)) = false) ->
  (Kin.t (at_ n k) <? t_max) = true ->
  outside (eul (at_ n k)) = true ->
  run cos fuel this t_max dt k = Some (Escape, S n).
Proof.
  induction n as [|n IH]; intros fuel k Hf Hi Hg Ho;
    (destruct fuel as [|fuel]; [lia|]); cbn [run].
  - cbn in Hg, Ho. now rewrite Hg, Ho.
  - destruct (Hi 0%nat ltac:(lia)) as [G O]. cbn in G, O. rewrite G, O.
    rewrite (IH fuel (nxt k)); [reflexivity | lia | | |].
    + intros i Hlt. rewrite iter_next_r. apply (Hi (S i)). lia.
    + rewrite iter_next_r. exact Hg.
    + rewrite iter_next_r. exact Ho.
Qed.

(** The number of iterations is below the fuel. *)
Lemma run_steps_lt_fuel fuel : forall k ex n,
  run cos fuel this t_max dt k = Some (ex, n) -> (n <= fuel)%nat /\
  (ex = TimeUp -> (n < fuel)%nat).
Proof.
  induction fuel as [|fuel IH]; intros k ex n H; [discriminate|].
  cbn [run] in H.
  destruct (Kin.t k <? t_max).
  - destruct (outside (eul k)).
    + injection H as <- <-. split; [lia | discriminate].
    + destruct (run cos fuel this t_max dt (nxt k)) as [[ex' n']|] eqn:E;
        [|discriminate].
      injection H as <- <-. destruct (IH _ _ _ E) as [H1 H2].
      split; [lia|]. intros ->. specialize (H2 eq_refl). lia.
  - injection H as <- <-. split; [lia|]. intros _; lia.
Qed.

End LoopExit.

(** ** When the loop is left by [break]

    [exit_of] in terms of the boundary test alone: the loop is left by
    [break] exactly when some iteration, reached with the guard true and
    without an earlier break, moves the ion out of bounds. *)

Section Exit.

Variable cos : float -> float.

Lemma exit_of_escape_iff fuel this ic t_max dt :
  exit_of cos fuel this ic t_max dt = Some Escape <->
  exists n, (n < fuel)%nat /\
    (forall i, (i < n)%nat ->
       (Kin.t (Nat.iter i (next cos this dt) (initial ic)) <? t_max) = true /\
       outside (moved cos this dt ic i) = false) /\
    (Kin.t (Nat.iter n (next cos this dt) (initial ic)) <? t_max) = true /\
    outside (moved cos this dt ic n) = true.
Proof.
  unfold exit_of. split.
  - destruct (run cos fuel this t_max dt (initial ic)) as [[[] n]|] eqn:R;
      try discriminate.
    intros _. destruct (run_escape _ _ _ _ _ _ _ R) as (n' & -> & Hi & Hg & Ho).
    exists n'. split; [|split; [exact Hi | split; [exact Hg | exact Ho]]].
    destruct (run_steps_lt_fuel _ _ _ _ _ _ _ _ R) as [Hle _]. lia.
  - intros (n & Hn & Hi & Hg & Ho).
    now rewrite (run_reaches_escape cos this t_max dt n fuel _ Hn Hi Hg Ho).
Qed.

Lemma exit_of_time_up_iff fuel this ic t_max dt :
  exit_of cos fuel this ic t_max dt = Some TimeUp <->
  exists n, (n < fuel)%nat /\
    (forall i, (i < n)%nat ->
       (Kin.t (Nat.iter i (next cos this dt) (initial ic)) <? t_max) = true /\
       outside (moved cos this dt ic i) = false) /\
    (Kin.t (Nat.iter n (next cos this dt) (initial ic)) <? t_max) = false.
Proof.
  unfold exit_of. split.
  - destruct (run cos fuel this t_max dt (initial ic)) as [[[] n]|] eqn:R;
      try discriminate.
    intros _. destruct (run_time_up _ _ _ _ _ _ _ R) as (Hi & Hg).
    exists n. split; [|split; [exact Hi | exact Hg]].
    destruct (run_steps_lt_fuel _ _ _ _ _ _ _ _ R) as [_ Hlt]. now apply Hlt.
  - intros (n & Hn & Hi & Hg).
    now rewrite (run_reaches_time_up cos this t_max dt n fuel _ Hn Hi Hg).
Qed.

End Exit.

(** ** [lastStablePosition] after a run *)

Section LastStablePosition.

Variable cos : float -> float.

(** C3: whatever [lastStablePosition] held before the call is forgotten;
    after a run left by its guard the field is [None]; after a run left
    by the boundary test it is the point just before the last one of the
    array, and the point at index 0 when the array has a single point. *)
Theorem simulate_lastStablePosition fuel this ic t_max dt this' trajectory :
  simulate cos fuel this ic t_max dt = Some (this', trajectory) ->
  (forall v,
     simulate cos fuel (set_lastStablePosition this v) ic t_max dt =
     Some (this', trajectory)) /\
  match exit_of cos fuel this ic t_max dt with
  | Some TimeUp => Sim.lastStablePosition this' = None
  | Some Escape =>
      (1 <= length trajectory)%nat /\
      is_Some (Sim.lastStablePosition this') /\
      (length trajectory = 1%nat ->
         Sim.lastStablePosition this' = trajectory !! 0%nat) /\
      (2 <= length trajectory ->
         Sim.lastStablePosition this' =
         trajectory !! (length trajectory - 2))%nat
  | None => False
  end.
Proof.
  intros H. split; [intros v; exact H|]. simulate_cases H n R.
  - reflexivity.
  - cbn [Sim.lastStablePosition set_lastStablePosition].
    rewrite escape_array_length.
    split; [lia|]. split; [|split].
    + apply lookup_lt_is_Some. rewrite escape_array_length. lia.
    + intros E. replace n with 0%nat by lia. reflexivity.
    + intros _. reflexivity.
Qed.

End LastStablePosition.

(** ** Determinism *)

Section Determinism.

Variable cos : float -> float.

Lemma simulate_fuel_mono fuel fuel' this ic t_max dt r :
  simulate cos fuel this ic t_max dt = Some r -> (fuel <= fuel')%nat ->
  simulate cos fuel' this ic t_max dt = Some r.
Proof.
  intros H Hle. destruct r as [this' trajectory].
  apply simulate_inv. apply simulate_inv in H.
  destruct H as [n R|n R]; constructor; eapply run_fuel_mono; eassumption.
Qed.

(** A reachable simulator is the fresh one up to [lastStablePosition]. *)
Lemma reachable_fields params this :
  reachable cos params this ->
  this = set_lastStablePosition (constructor params)
           (Sim.lastStablePosition this).
Proof.
  induction 1 as [|this fuel ic t_max dt this' trajectory _ IH H].
  - reflexivity.
  - unfold simulate in H.
    destruct (simulate_loop cos fuel _ t_max dt _ _) as [[tr lsp]|];
      [|discriminate].
    injection H as <- _. rewrite IH. reflexivity.
Qed.

(** C5: two simulators obtained from the same parameters, whatever runs
    each has been through, return the same array (and are left in the
    same state) on the same arguments. *)
Theorem simulate_deterministic params this1 this2 fuel1 fuel2 ic t_max dt
    r1 r2 :
  reachable cos params this1 ->
  reachable cos params this2 ->
  simulate cos fuel1 this1 ic t_max dt = Some r1 ->
  simulate cos fuel2 this2 ic t_max dt = Some r2 ->
  r1 = r2.
Proof.
  intros H1 H2 E1 E2.
  rewrite (reachable_fields _ _ H1), simulate_set_lastStablePosition in E1.
  rewrite (reachable_fields _ _ H2), simulate_set_lastStablePosition in E2.
  destruct (Nat.le_ge_cases fuel1 fuel2) as [Hle|Hle].
  - rewrite (simulate_fuel_mono _ _ _ _ _ _ _ E1 Hle) in E2. congruence.
  - rewrite (simulate_fuel_mono _ _ _ _ _ _ _ E2 Hle) in E1. congruence.
Qed.

End Determinism.

(** ** Times and positions of the returned points *)

Section Times.

Variable cos : float -> float.

Lemma accumulate_succ n t dt : accumulate (S n) t dt = accumulate n t dt + dt.
Proof.
  revert t; induction n as [|n IH]; intros t; [reflexivity|].
  change (accumulate (S (S n)) t dt) with (accumulate (S n) (t + dt) dt).
  rewrite IH. reflexivity.
Qed.

Lemma stamps_lookup n : forall t dt i,
  (i < n)%nat -> stamps n t dt !! i = Some (accumulate i t dt * 1e6).
Proof.
  induction n as [|n IH]; intros t dt i Hi; [lia|].
  destruct i as [|i]; [reflexivity|].
  cbn [stamps accumulate]. apply IH. lia.
Qed.

Lemma increasing_lookup l : forall i j a b,
  increasing l = true -> (i < j)%nat ->
  l !! i = Some a -> l !! j = Some b -> (a <? b) = true.
Proof.
  induction l as [|c l IH]; intros i j a b Hinc Hij Ha Hb; [discriminate|].
  cbn [increasing] in Hinc. apply andb_true_iff in Hinc as [Hc Hl].
  destruct j as [|j]; [lia|]. cbn in Hb.
  destruct i as [|i].
  - cbn in Ha. injection Ha as ->.
    rewrite forallb_forall in Hc. apply Hc.
    apply list_elem_of_In. eapply list_elem_of_lookup_2. exact Hb.
  - cbn in Ha. apply (IH i j); [assumption | lia | assumption..].
Qed.

(** The array has one point for each iteration of the loop. *)
Lemma simulate_length fuel this ic t_max dt this' trajectory :
  simulate cos fuel this ic t_max dt = Some (this', trajectory) ->
  exists ex, run cos fuel this t_max dt (initial ic) =
             Some (ex, length trajectory).
Proof.
  intros H. apply simulate_inv in H. destruct H as [n R|n R].
  - rewrite length_fmap, recorded_length. now exists TimeUp.
  - rewrite escape_array_length. now exists Escape.
Qed.

(** The point at index [i]: the time is the one at which iteration [i]
    started, the position the one iteration [i] computed. *)
Lemma trajectory_lookup fuel this ic t_max dt this' trajectory i p :
  simulate cos fuel this ic t_max dt = Some (this', trajectory) ->
  trajectory !! i = Some p ->
  let k := Nat.iter i (next cos this dt) (initial ic) in
  Point.t p = Kin.t k * 1e6 /\
  Point.x p = Kin.x (euler cos this dt k) * 1e3 /\
  Point.y p = Kin.y (euler cos this dt k) * 1e3.
Proof.
  intros H Hi. apply simulate_inv in H. destruct H as [n R|n R].
  - pose proof (lookup_lt_Some _ _ _ Hi) as Hlt.
    rewrite length_fmap, recorded_length in Hlt.
    rewrite list_lookup_fmap, recorded_lookup in Hi by exact Hlt.
    injection Hi as <-. now repeat split.
  - unfold escape_array in Hi.
    apply lookup_app_Some in Hi as [Hi | [Hle Hi]].
    + pose proof (lookup_lt_Some _ _ _ Hi) as Hlt.
      rewrite length_fmap, recorded_length in Hlt.
      rewrite list_lookup_fmap, recorded_lookup in Hi by exact Hlt.
      injection Hi as <-. now repeat split.
    + rewrite length_fmap, recorded_length in *.
      pose proof (lookup_lt_Some _ _ _ Hi) as Hlt. cbn [length] in Hlt.
      replace (i - n)%nat with 0%nat in Hi by lia.
      replace i with n by lia.
      injection Hi as <-. now repeat split.
Qed.

(** The loop is left within the iterations the guard allows. *)
Lemma run_grid this t_max dt fuel : forall k ts,
  grid fuel (Kin.t k) t_max dt = Some ts ->
  exists ex n, run cos fuel this t_max dt k = Some (ex, n) /\
    (n <= length ts)%nat /\ (ex = TimeUp -> n = length ts).
Proof.
  induction fuel as [|fuel IH]; intros k ts H; [discriminate|].
  cbn [grid] in H. cbn [run].
  destruct (Kin.t k <? t_max).
  - destruct (grid fuel (Kin.t k + dt) t_max dt) as [ts'|] eqn:G;
      [|discriminate].
    injection H as <-. cbn [length].
    destruct (outside (euler cos this dt k)).
    + exists Escape, 1%nat. split; [reflexivity|]. split; [lia|discriminate].
    + destruct (IH (next cos this dt k) ts' G) as (ex & n & -> & Hle & Heq).
      exists ex, (S n). split; [reflexivity|]. split; [lia|].
      intros Hex. now rewrite (Heq Hex).
  - injection H as <-. exists TimeUp, 0%nat. now repeat split.
Qed.

Lemma shell_grid :
  length <$> grid 2001 0 shell_t_max shell_dt = Some 2000%nat.
Proof. vm_compute. reflexivity. Qed.

Lemma shell_stamps_increasing : increasing (stamps 2000 0 shell_dt) = true.
Proof. vm_compute. reflexivity. Qed.

Lemma shell_run this ic :
  exists ex n,
    run cos 2001 this shell_t_max shell_dt (initial ic) = Some (ex, n) /\
    (n <= 2000)%nat /\ (ex = TimeUp -> n = 2000%nat).
Proof.
  pose proof shell_grid as G.
  destruct (grid 2001 0 shell_t_max shell_dt) as [ts|] eqn:E; [|discriminate].
  injection G as G.
  destruct (run_grid this shell_t_max shell_dt 2001 (initial ic) ts E)
    as (ex & n & R & Hle & Heq).
  rewrite G in Hle, Heq. exists ex, n. split; [exact R|]. split; assumption.
Qed.

End Times.

(** ** Time stamps *)

Section TimeStamps.

Variable cos : float -> float.

(** C2, amended: the point at index [k] carries the time accumulated by [k]
    floating-point additions of [dt] to 0, times [1e6]; on the shell's
    [t_max] and [dt] the times of the returned points increase strictly. *)
Theorem simulate_times fuel this ic t_max dt this' trajectory :
  simulate cos fuel this ic t_max dt = Some (this', trajectory) ->
  (forall k p, trajectory !! k = Some p ->
     Point.t p = accumulate k 0 dt * 1e6) /\
  (t_max = shell_t_max -> dt = shell_dt ->
   forall i j p q, (i < j)%nat ->
     trajectory !! i = Some p -> trajectory !! j = Some q ->
     (Point.t p <? Point.t q) = true).
Proof.
  intros H.
  assert (T : forall k p, trajectory !! k = Some p ->
                Point.t p = accumulate k 0 dt * 1e6).
  { intros k p Hk.
    destruct (trajectory_lookup cos _ _ _ _ _ _ _ _ _ H Hk) as [-> _].
    rewrite iter_next_t. reflexivity. }
  split; [exact T|].
  intros -> -> i j p q Hij Hi Hj.
  destruct (simulate_length cos _ _ _ _ _ _ _ H) as [ex R].
  destruct (shell_run cos this ic) as (ex' & n & R' & Hn & _).
  pose proof (run_deterministic _ _ _ _ _ _ _ _ _ R R') as E.
  injection E as _ E.
  pose proof (lookup_lt_Some _ _ _ Hj) as Hlt.
  apply (increasing_lookup _ i j _ _ shell_stamps_increasing Hij).
  - rewrite (T _ _ Hi). apply stamps_lookup. lia.
  - rewrite (T _ _ Hj). apply stamps_lookup. lia.
Qed.

(** C9, amended: the point is pushed before [t += dt].  The point at
    index [k] carries the time at which iteration [k] started ([k]
    additions of [dt], so 0 for the first point), not the time [k + 1]
    additions give, which [t] takes only after the push; its position is
    the one that iteration computed from the updated velocity. *)
Theorem simulate_point_recorded_before_tick fuel this ic t_max dt this'
    trajectory k p :
  simulate cos fuel this ic t_max dt = Some (this', trajectory) ->
  trajectory !! k = Some p ->
  let start := Nat.iter k (next cos this dt) (initial ic) in
  let after := moved cos this dt ic k in
  Kin.t start = accumulate k 0 dt /\
  Point.t p = Kin.t start * 1e6 /\
  Kin.t (next cos this dt start) = accumulate (S k) 0 dt /\
  Kin.vx after =
    Kin.vx start + calculateForceX cos this (Kin.x start) (Kin.t start) / m * dt /\
  Kin.vy after =
    Kin.vy start + calculateForceY cos this (Kin.y start) (Kin.t start) / m * dt /\
  Point.x p = (Kin.x start + Kin.vx after * dt) * 1e3 /\
  Point.y p = (Kin.y start + Kin.vy after * dt) * 1e3.
Proof.
  intros H Hk start after.
  destruct (trajectory_lookup cos _ _ _ _ _ _ _ _ _ H Hk) as (Ht & Hx & Hy).
  split; [apply iter_next_t|]. split; [exact Ht|].
  split; [|now repeat split].
  rewrite next_t, accumulate_succ. f_equal. apply iter_next_t.
Qed.

(** C6: on the shell's arguments the loop is left within 2001 tests of its
    guard, for every simulator and every initial condition; the array has
    exactly 2000 points when it is left by the guard, and between 1 and
    2000 when it is left by the boundary test. *)
Theorem shell_run_terminates this ic :
  exists this' trajectory,
    simulate cos 2001 this ic shell_t_max shell_dt = Some (this', trajectory) /\
    match exit_of cos 2001 this ic shell_t_max shell_dt with
    | Some TimeUp => length trajectory = 2000%nat
    | Some Escape => (1 <= length trajectory <= 2000)%nat
    | None => False
    end.
Proof.
  destruct (shell_run cos this ic) as (ex & n & R & Hn & Heq).
  unfold exit_of. rewrite R. destruct ex.
  - destruct (run_escape _ _ _ _ _ _ _ R) as (n' & -> & _).
    rewrite (simulate_escape _ _ _ _ _ _ _ R).
    eexists _, _. split; [reflexivity|]. rewrite escape_array_length. lia.
  - rewrite (simulate_time_up _ _ _ _ _ _ _ R).
    eexists _, _. split; [reflexivity|].
    rewrite length_fmap, recorded_length. now apply Heq.
Qed.

Lemma runSimulation_returns params : is_Some (runSimulation cos 2001 params).
Proof.
  unfold runSimulation.
  destruct (shell_run cos (constructor params) shell_initial)
    as ([] & n & R & _).
  - destruct (run_escape _ _ _ _ _ _ _ R) as (n' & -> & _).
    now rewrite (simulate_escape _ _ _ _ _ _ _ R).
  - now rewrite (simulate_time_up _ _ _ _ _ _ _ R).
Qed.

End TimeStamps.

(** ** Two facts of binary64 arithmetic *)

Lemma SFcompare_antisym (a b : spec_float) :
  SFcompare b a = CompOpp <$> SFcompare a b.
Proof.
  destruct a as [sa| sa| |sa ma ea], b as [sb| sb| |sb mb eb];
    try destruct sa; try destruct sb; try reflexivity; cbn;
    rewrite (Z.compare_antisym eb ea);
    destruct (eb ?= ea)%Z; cbn; try reflexivity;
    rewrite (Pos.compare_cont_antisym ma mb Eq); reflexivity.
Qed.

(** [a <= b] excludes [b < a]. *)
Lemma leb_true_ltb_false (a b : float) :
  (a <=? b) = true -> (b <? a) = false.
Proof.
  rewrite FloatAxioms.leb_spec, FloatAxioms.ltb_spec. unfold SFleb, SFltb.
  rewrite (SFcompare_antisym (Prim2SF a) (Prim2SF b)).
  now destruct (SFcompare (Prim2SF a) (Prim2SF b)) as [[]|].
Qed.

(** [Math.abs(-v)] is [Math.abs(v)], also for zeros, infinities and NaN. *)
Lemma abs_opp (v : float) : abs (- v) = abs v.
Proof.
  apply Prim2SF_inj. rewrite !abs_spec, opp_spec.
  now destruct (Prim2SF v).
Qed.

(** ** The stability query *)

Lemma isStable_true this :
  isStable this = true -> mathieu_test this = true.
Proof.
  unfold isStable, mathieu_test. intros H.
  apply andb_true_iff in H as [H _]. now apply andb_true_iff in H as [H _].
Qed.

(** C4: when [|q_x| >= 0.908] or [|a_x| >= 0.237] the query answers
    [false], whatever [lastStablePosition] holds. *)
Theorem isStable_analytic_gate this :
  (0.908 <=? abs (Sim.qx this)) = true \/
  (0.237 <=? abs (Sim.ax this)) = true ->
  forall v, isStable (set_lastStablePosition this v) = false.
Proof.
  intros H v. destruct (isStable _) eqn:E; [|reflexivity].
  apply isStable_true in E. unfold mathieu_test in E.
  cbn [set_lastStablePosition Sim.qx Sim.ax] in E.
  apply andb_true_iff in E as [Eq Ea].
  destruct H as [H|H]; apply leb_true_ltb_false in H; congruence.
Qed.

Section Query.

Variable cos : float -> float.

Lemma constructor_mirror params :
  let this := constructor params in
  (abs (Sim.qy this) <? 0.908) && (abs (Sim.ay this) <? 0.237) =
  mathieu_test this.
Proof.
  cbn [constructor Sim.qy Sim.ay]. unfold mathieu_test.
  cbn [Sim.qx Sim.ax]. now rewrite !abs_opp.
Qed.

Lemma isStable_no_escape params v :
  isStable (set_lastStablePosition (constructor params) v) =
  mathieu_test (constructor params) &&
  match v with
  | None => true
  | Some p =>
      (abs (Point.x p / 1e3) <? r0 * 0.8) &&
      (abs (Point.y p / 1e3) <? r0 * 0.8)
  end.
Proof.
  pose proof (constructor_mirror params) as M. cbn zeta in M.
  unfold isStable.
  cbn [set_lastStablePosition Sim.qx Sim.ax Sim.qy Sim.ay
       Sim.lastStablePosition].
  rewrite M. unfold mathieu_test.
  now destruct (abs (Sim.qx _) <? _), (abs (Sim.ax _) <? _).
Qed.

(** C10: on a fresh simulator, and on a simulator whose last run was left
    by the guard, [lastStablePosition] is [None] and the query is the
    analytic test on [q_x] and [a_x] alone; the test on [q_y], [a_y] has
    the same value. *)
Theorem isStable_without_escape params :
  let fresh := constructor params in
  Sim.lastStablePosition fresh = None /\
  isStable fresh = mathieu_test fresh /\
  (abs (Sim.qy fresh) <? 0.908) && (abs (Sim.ay fresh) <? 0.237) =
    mathieu_test fresh /\
  forall this fuel ic t_max dt this' trajectory,
    reachable cos params this ->
    simulate cos fuel this ic t_max dt = Some (this', trajectory) ->
    exit_of cos fuel this ic t_max dt = Some TimeUp ->
    Sim.lastStablePosition this' = None /\
    isStable this' = mathieu_test fresh.
Proof.
  intros fresh. split; [reflexivity|]. split; [|split].
  - change fresh with (set_lastStablePosition (constructor params) None).
    rewrite isStable_no_escape. apply andb_true_r.
  - apply constructor_mirror.
  - intros this fuel ic t_max dt this' trajectory Hr H Hex.
    assert (L : Sim.lastStablePosition this' = None).
    { pose proof H as H'. apply simulate_inv in H'. unfold exit_of in Hex.
      destruct H' as [n R|n R]; [reflexivity|].
      rewrite R in Hex. discriminate. }
    split; [exact L|].
    pose proof (reachable_simulate cos _ _ _ _ _ _ _ _ Hr H) as Hr'.
    rewrite (reachable_fields cos _ _ Hr'), L, isStable_no_escape.
    apply andb_true_r.
Qed.

End Query.

(** ** Defaults of the optional parameters *)

Lemma or_default_falsy v d : JS.falsy v = true -> JS.or_default (Some v) d = d.
Proof. intros H. cbn. now rewrite H. Qed.

Lemma or_default_truthy o d : JS.falsy (JS.or_default o d) = JS.falsy d
  \/ JS.falsy (JS.or_default o d) = false.
Proof.
  destruct o as [v|]; cbn; [|now left].
  destruct (JS.falsy v) eqn:F; [now left | now right].
Qed.

(** The [omega] of a constructed simulator is never falsy (so neither zero
    nor NaN): it is the supplied value when that is truthy and [1e6]
    otherwise.  With [1e6], and with every [omega] the shell can supply,
    the divisor of the coefficient formulas is not zero. *)
Theorem constructor_omega params :
  let this := constructor params in
  JS.falsy (Sim.omega this) = false /\
  (Sim.omega this =? 0) = false /\
  match Params.omega params with
  | Some w => Sim.omega this = if JS.falsy w then 1e6 else w
  | None => Sim.omega this = 1e6
  end /\
  Sim.ax this = 8 * e * Sim.U this / denominator (Sim.omega this) /\
  Sim.qx this = -4 * e * Sim.V this / denominator (Sim.omega this) /\
  Forall (fun w => (denominator w =? 0) = false) (1e6 :: shell_omegas).
Proof.
  intros this.
  assert (F : JS.falsy (Sim.omega this) = false).
  { change (Sim.omega this) with (JS.or_default (Params.omega params) 1e6).
    destruct (or_default_truthy (Params.omega params) 1e6) as [H|H];
      [rewrite H; reflexivity | exact H]. }
  split; [exact F|]. split.
  { unfold JS.falsy in F. now apply orb_false_iff in F as [F _]. }
  split.
  { subst this. destruct params as [U V [w|]]; reflexivity. }
  split; [reflexivity|]. split; [reflexivity|].
  apply Forall_forall. intros w Hw.
  repeat (apply elem_of_cons in Hw as [->|Hw]; [reflexivity|]).
  now apply elem_of_nil in Hw.
Qed.

(** C8: a supplied [0] is replaced by the default like an absent value:
    [simulate] starts from [1e-3] on an axis whose initial position is
    given as [0], and the constructor turns [omega = 0] into [1e6]. *)
Theorem zero_takes_default (cos : float -> float) fuel this x y vx vy
    t_max dt U V :
  Kin.x (initial (Init.mk (Some 0) y vx vy)) = 1e-3 /\
  Kin.y (initial (Init.mk x (Some 0) vx vy)) = 1e-3 /\
  simulate cos fuel this (Init.mk (Some 0) y vx vy) t_max dt =
    simulate cos fuel this (Init.mk None y vx vy) t_max dt /\
  simulate cos fuel this (Init.mk x (Some 0) vx vy) t_max dt =
    simulate cos fuel this (Init.mk x None vx vy) t_max dt /\
  Sim.omega (constructor (Params.mk U V (Some 0))) = 1e6 /\
  constructor (Params.mk U V (Some 0)) = constructor (Params.mk U V None) /\
  JS.falsy 0 = true /\ JS.falsy (-0) = true /\ JS.falsy nan = true.
Proof. repeat split. Qed.

(** ** The theorems at concrete runs *)

Lemma dc_run_eq :
  simulate cos_approx 8 (constructor dc_params)
    shell_initial shell_t_max shell_dt =
  Some (dc_run_simulator, dc_run_trajectory).
Proof. vm_compute. reflexivity. Qed.

Lemma outside_run_eq :
  simulate cos_approx 8 (constructor dc_params)
    outside_initial shell_t_max shell_dt =
  Some (outside_run_simulator, outside_run_trajectory).
Proof. vm_compute. reflexivity. Qed.

Lemma quiet_run_eq :
  simulate cos_approx 8 (constructor no_params) shell_initial 5e-8 shell_dt =
  Some (quiet_run_simulator, quiet_run_trajectory).
Proof. vm_compute. reflexivity. Qed.

(** [simulate_stable_flags] on the run of [dc_params], which breaks at its
    seventh point. *)
Lemma simulate_stable_flags_witness :
  simulate cos_approx 8 (constructor dc_params)
    shell_initial shell_t_max shell_dt =
  Some (dc_run_simulator, dc_run_trajectory) /\
  ((0 <? shell_t_max) = true -> dc_run_trajectory <> []) /\
  (forall i p, dc_run_trajectory !! i = Some p -> Point.stable p = false ->
     S i = length dc_run_trajectory) /\
  match exit_of cos_approx 8 (constructor dc_params)
          shell_initial shell_t_max shell_dt with
  | Some TimeUp =>
      (forall i, (i < length dc_run_trajectory)%nat ->
         outside (moved cos_approx (constructor dc_params) shell_dt
                    shell_initial i) = false) /\
      Forall (fun p => Point.stable p = true) dc_run_trajectory
  | Some Escape =>
      exists earlier final,
        dc_run_trajectory = earlier ++ [final] /\
        (forall i, (i < length earlier)%nat ->
           outside (moved cos_approx (constructor dc_params) shell_dt
                      shell_initial i) = false) /\
        outside (moved cos_approx (constructor dc_params) shell_dt
                   shell_initial (length earlier)) = true /\
        Forall (fun p => Point.stable p = true) earlier /\
        Point.stable final = false
  | None => False
  end.
Proof.
  split; [vm_compute; reflexivity|].
  apply (simulate_stable_flags cos_approx 8 (constructor dc_params)
           shell_initial shell_t_max shell_dt
           dc_run_simulator dc_run_trajectory).
  vm_compute; reflexivity.
Defined.

(** [simulate_lastStablePosition] on the run from [outside_initial], whose
    only point is out of bounds. *)
Lemma simulate_lastStablePosition_witness :
  simulate cos_approx 8 (constructor dc_params)
    outside_initial shell_t_max shell_dt =
  Some (outside_run_simulator, outside_run_trajectory) /\
  (forall v,
     simulate cos_approx 8 (set_lastStablePosition (constructor dc_params) v)
       outside_initial shell_t_max shell_dt =
     Some (outside_run_simulator, outside_run_trajectory)) /\
  match exit_of cos_approx 8 (constructor dc_params)
          outside_initial shell_t_max shell_dt with
  | Some TimeUp => Sim.lastStablePosition outside_run_simulator = None
  | Some Escape =>
      (1 <= length outside_run_trajectory)%nat /\
      is_Some (Sim.lastStablePosition outside_run_simulator) /\
      (length outside_run_trajectory = 1%nat ->
         Sim.lastStablePosition outside_run_simulator =
         outside_run_trajectory !! 0%nat) /\
      (2 <= length outside_run_trajectory ->
         Sim.lastStablePosition outside_run_simulator =
         outside_run_trajectory !! (length outside_run_trajectory - 2))%nat
  | None => False
  end.
Proof.
  split; [vm_compute; reflexivity|].
  apply (simulate_lastStablePosition cos_approx 8 (constructor dc_params)
           outside_initial shell_t_max shell_dt
           outside_run_simulator outside_run_trajectory).
  vm_compute; reflexivity.
Defined.

(** [simulate_deterministic] on a fresh simulator and on one that has
    been through a run, with different fuel. *)
Lemma simulate_deterministic_witness :
  reachable cos_approx dc_params (constructor dc_params) /\
  reachable cos_approx dc_params outside_run_simulator /\
  simulate cos_approx 8 (constructor dc_params)
    shell_initial shell_t_max shell_dt =
  Some (dc_run_simulator, dc_run_trajectory) /\
  simulate cos_approx 20 outside_run_simulator
    shell_initial shell_t_max shell_dt =
  Some (rerun_simulator, rerun_trajectory) /\
  (dc_run_simulator, dc_run_trajectory) = (rerun_simulator, rerun_trajectory).
Proof.
  assert (R1 : reachable cos_approx dc_params (constructor dc_params))
    by constructor.
  assert (R2 : reachable cos_approx dc_params outside_run_simulator).
  { apply (reachable_simulate cos_approx dc_params (constructor dc_params)
             8 outside_initial shell_t_max shell_dt
             outside_run_simulator outside_run_trajectory R1).
    vm_compute; reflexivity. }
  assert (E1 : simulate cos_approx 8 (constructor dc_params)
                 shell_initial shell_t_max shell_dt =
               Some (dc_run_simulator, dc_run_trajectory))
    by (vm_compute; reflexivity).
  assert (E2 : simulate cos_approx 20 outside_run_simulator
                 shell_initial shell_t_max shell_dt =
               Some (rerun_simulator, rerun_trajectory))
    by (vm_compute; reflexivity).
  split; [exact R1|]. split; [exact R2|].
  split; [exact E1|]. split; [exact E2|].
  exact (simulate_deterministic cos_approx dc_params _ _ 8 20
           shell_initial shell_t_max shell_dt _ _ R1 R2 E1 E2).
Defined.

(** [simulate_times] on the run of [dc_params]. *)
Lemma simulate_times_witness :
  simulate cos_approx 8 (constructor dc_params)
    shell_initial shell_t_max shell_dt =
  Some (dc_run_simulator, dc_run_trajectory) /\
  (forall k p, dc_run_trajectory !! k = Some p ->
     Point.t p = accumulate k 0 shell_dt * 1e6) /\
  (forall i j p q, (i < j)%nat ->
     dc_run_trajectory !! i = Some p -> dc_run_trajectory !! j = Some q ->
     (Point.t p <? Point.t q) = true).
Proof.
  assert (H : simulate cos_approx 8 (constructor dc_params)
                shell_initial shell_t_max shell_dt =
              Some (dc_run_simulator, dc_run_trajectory))
    by (vm_compute; reflexivity).
  split; [exact H|].
  destruct (simulate_times cos_approx 8 (constructor dc_params)
              shell_initial shell_t_max shell_dt
              dc_run_simulator dc_run_trajectory H) as [T I].
  split; [exact T | exact (I eq_refl eq_refl)].
Defined.

(** C2 as stated fails on the shell's own call.  With no parameters the ion
    does not move and the array has 2000 points; the point at index 7 has
    [t = 0.06999999999999999], which is not [7 * dt * 1e6 = 0.07]. *)
Lemma simulate_times_counterexample :
  exists this' trajectory p,
    simulate cos_approx 2001 (constructor no_params)
      shell_initial shell_t_max shell_dt = Some (this', trajectory) /\
    trajectory !! 7%nat = Some p /\
    Point.t p = 0.06999999999999999 /\
    7 * shell_dt * 1e6 = 0.07 /\
    7 * (shell_dt * 1e6) = 0.07 /\
    (Point.t p =? 0.07) = false.
Proof.
  eexists _, _, _.
  split; [vm_compute; reflexivity|].
  split; [vm_compute; reflexivity|].
  repeat split.
Qed.

(** The times need not increase strictly either: with [dt = 1e303] the
    second and third points both carry [infinity]. *)
Lemma simulate_times_overflow :
  exists this' trajectory,
    simulate cos_approx 4 (constructor no_params)
      shell_initial 2.5e303 1e303 = Some (this', trajectory) /\
    Point.t <$> trajectory = [0; infinity; infinity].
Proof.
  eexists _, _. split; vm_compute; reflexivity.
Qed.

(** [isStable_analytic_gate] at [V = 1000]: [q_x] is about [-3831.5]. *)
Lemma isStable_analytic_gate_witness :
  ((0.908 <=? abs (Sim.qx (constructor large_V_params))) = true \/
   (0.237 <=? abs (Sim.ax (constructor large_V_params))) = true) /\
  forall v,
    isStable (set_lastStablePosition (constructor large_V_params) v) = false.
Proof.
  assert (H : (0.908 <=? abs (Sim.qx (constructor large_V_params))) = true \/
              (0.237 <=? abs (Sim.ax (constructor large_V_params))) = true)
    by (left; vm_compute; reflexivity).
  split; [exact H|].
  exact (isStable_analytic_gate (constructor large_V_params) H).
Defined.

(** At [omega = 1e-170] the field is not zero, but the divisor underflows
    to 0 and both coefficients are infinite. *)
Lemma denominator_underflow :
  Sim.omega (constructor tiny_omega_params) = 1e-170 /\
  (Sim.omega (constructor tiny_omega_params) =? 0) = false /\
  denominator (Sim.omega (constructor tiny_omega_params)) = 0 /\
  Sim.ax (constructor tiny_omega_params) = infinity /\
  Sim.qx (constructor tiny_omega_params) = neg_infinity.
Proof. repeat split. Qed.

(** [simulate_point_recorded_before_tick] at the last point of the run of
    [dc_params]. *)
Lemma simulate_point_recorded_before_tick_witness :
  simulate cos_approx 8 (constructor dc_params)
    shell_initial shell_t_max shell_dt =
  Some (dc_run_simulator, dc_run_trajectory) /\
  dc_run_trajectory !! 6%nat = Some dc_run_last /\
  let start :=
    Nat.iter 6 (next cos_approx (constructor dc_params) shell_dt)
      (initial shell_initial) in
  let after :=
    moved cos_approx (constructor dc_params) shell_dt shell_initial 6 in
  Kin.t start = accumulate 6 0 shell_dt /\
  Point.t dc_run_last = Kin.t start * 1e6 /\
  Kin.t (next cos_approx (constructor dc_params) shell_dt start) =
    accumulate 7 0 shell_dt /\
  Kin.vx after =
    Kin.vx start +
    calculateForceX cos_approx (constructor dc_params)
      (Kin.x start) (Kin.t start) / m * shell_dt /\
  Kin.vy after =
    Kin.vy start +
    calculateForceY cos_approx (constructor dc_params)
      (Kin.y start) (Kin.t start) / m * shell_dt /\
  Point.x dc_run_last = (Kin.x start + Kin.vx after * shell_dt) * 1e3 /\
  Point.y dc_run_last = (Kin.y start + Kin.vy after * shell_dt) * 1e3.
Proof.
  assert (H : simulate cos_approx 8 (constructor dc_params)
                shell_initial shell_t_max shell_dt =
              Some (dc_run_simulator, dc_run_trajectory))
    by (vm_compute; reflexivity).
  assert (L : dc_run_trajectory !! 6%nat = Some dc_run_last)
    by (vm_compute; reflexivity).
  split; [exact H|]. split; [exact L|].
  exact (simulate_point_recorded_before_tick cos_approx 8
           (constructor dc_params) shell_initial shell_t_max shell_dt
           dc_run_simulator dc_run_trajectory 6 dc_run_last H L).
Defined.

(** C9 as stated fails on the first point of any run.  One iteration on
    the "Optimal Trapping" preset: the only call of [cos] is at [0], the
    point carries [t = 0], and [(0 + 1) * dt * 1e6] is [0.01]. *)
Lemma first_point_time_zero :
  simulate cos_approx 2 (constructor preset_optimal) shell_initial 1e-8 1e-8 =
  Some (constructor preset_optimal,
        [ {| Point.t := 0;
             Point.x := 0.99743287271495273;
             Point.y := 1.0025671272850474;
             Point.stable := true |} ]) /\
  (0 + 1) * 1e-8 * 1e6 = 0.01 /\
  (0 =? 0.01) = false.
Proof. repeat split. Qed.

(** [isStable_without_escape] on the run of [no_params] for five steps. *)
Lemma isStable_without_escape_witness :
  reachable cos_approx no_params (constructor no_params) /\
  simulate cos_approx 8 (constructor no_params) shell_initial 5e-8 shell_dt =
  Some (quiet_run_simulator, quiet_run_trajectory) /\
  exit_of cos_approx 8 (constructor no_params) shell_initial 5e-8 shell_dt =
  Some TimeUp /\
  Sim.lastStablePosition quiet_run_simulator = None /\
  isStable quiet_run_simulator = mathieu_test (constructor no_params).
Proof.
  assert (R : reachable cos_approx no_params (constructor no_params))
    by constructor.
  assert (H : simulate cos_approx 8 (constructor no_params)
                shell_initial 5e-8 shell_dt =
              Some (quiet_run_simulator, quiet_run_trajectory))
    by (vm_compute; reflexivity).
  assert (X : exit_of cos_approx 8 (constructor no_params)
                shell_initial 5e-8 shell_dt = Some TimeUp)
    by (vm_compute; reflexivity).
  split; [exact R|]. split; [exact H|]. split; [exact X|].
  exact (proj2 (proj2 (proj2 (isStable_without_escape cos_approx no_params)))
           (constructor no_params) 8%nat shell_initial 5e-8 shell_dt
           quiet_run_simulator quiet_run_trajectory R H X).
Defined.

(** ** Runs that do not depend on the cosine

    With [V = 0] the cosine is multiplied by zero; with [U = 0] as well
    the force vanishes and an ion at rest stays where it is.  These runs
    are the same for every cosine that is finite on finite arguments. *)

Lemma finite_not_nan_inf c :
  is_finite c = true ->
  Prim2SF c <> S754_nan /\ forall s, Prim2SF c <> S754_infinity s.
Proof.
  unfold is_finite, is_nan, is_infinity. intros H.
  apply negb_true_iff, orb_false_iff in H as [Hn Hi].
  apply negb_false_iff in Hn. rewrite FloatAxioms.eqb_spec in Hn, Hi.
  rewrite FloatAxioms.abs_spec in Hi.
  split; [|intros s]; intros E; rewrite E in *; cbn in *; discriminate.
Qed.

Lemma zero_plus_zero_times c : is_finite c = true -> 0 + 0 * c = 0.
Proof.
  intros H. destruct (finite_not_nan_inf c H) as [Hn Hi].
  apply Prim2SF_inj. rewrite add_spec, mul_spec.
  change (Prim2SF 0) with (S754_zero false).
  destruct (Prim2SF c) as [[]|s| |[] mc ec]; try reflexivity.
  - now destruct (Hi s).
  - now destruct Hn.
Qed.

Section Quiet.

Variable cos : float -> float.
Hypothesis cos_finite : finite_on_finite cos.

Lemma quiet_euler dt t :
  is_finite (1e6 * t) = true -> dt = shell_dt \/ dt = 0 ->
  euler cos (constructor no_params) dt (at_rest t) = at_rest t.
Proof using cos_finite.
  intros Ht Hdt. apply cos_finite in Ht.
  unfold euler, calculateForceX, calculateForceY, at_rest.
  cbn [Kin.x Kin.y Kin.vx Kin.vy Kin.t].
  change (Sim.U (constructor no_params)) with 0.
  change (Sim.V (constructor no_params)) with 0.
  change (Sim.omega (constructor no_params)) with 1e6.
  rewrite (zero_plus_zero_times _ Ht).
  destruct Hdt as [-> | ->]; vm_compute; reflexivity.
Qed.

Lemma quiet_run fuel : forall t ts,
  grid fuel t shell_t_max shell_dt = Some ts ->
  Forall (fun t' => is_finite (1e6 * t') = true) ts ->
  run cos fuel (constructor no_params) shell_t_max shell_dt (at_rest t) =
  Some (TimeUp, length ts).
Proof using cos_finite.
  induction fuel as [|fuel IH]; intros t ts G F; [discriminate|].
  cbn [grid] in G. cbn [run]. change (Kin.t (at_rest t)) with t.
  destruct (t <? shell_t_max); [|now injection G as <-].
  destruct (grid fuel (t + shell_dt) shell_t_max shell_dt) as [ts'|] eqn:G';
    [|discriminate].
  injection G as <-. apply Forall_cons in F as [Ft F].
  unfold next. rewrite (quiet_euler shell_dt t Ft (or_introl eq_refl)).
  change (outside (at_rest t)) with false.
  change (tick shell_dt (at_rest t)) with (at_rest (t + shell_dt)).
  now rewrite (IH _ _ G' F).
Qed.

Lemma shell_grid_finite :
  match grid 2001 0 shell_t_max shell_dt with
  | Some ts => forallb (fun t' => is_finite (1e6 * t')) ts
  | None => false
  end = true.
Proof. vm_compute. reflexivity. Qed.

(** The shell's call on [new IonTrapSimulator({})]: 2000 points, and the
    one at index 7 is stamped [0.06999999999999999]. *)
Lemma quiet_shell_run :
  exists this' trajectory p,
    simulate cos 2001 (constructor no_params)
      shell_initial shell_t_max shell_dt = Some (this', trajectory) /\
    length trajectory = 2000%nat /\
    trajectory !! 7%nat = Some p /\
    Point.t p = 0.06999999999999999 /\
    (Point.t p =? 7 * shell_dt * 1e6) = false.
Proof using cos_finite.
  pose proof shell_grid as L. pose proof shell_grid_finite as F.
  destruct (grid 2001 0 shell_t_max shell_dt) as [ts|] eqn:G; [|discriminate].
  injection L as L.
  rewrite forallb_forall in F. apply List.Forall_forall in F.
  pose proof (quiet_run 2001 0 ts G F) as R. rewrite L in R.
  change (at_rest 0) with (initial shell_initial) in R.
  pose proof (simulate_time_up cos _ _ _ _ _ _ R) as S.
  set (trajectory := point <$> _) in S.
  assert (Hlen : length trajectory = 2000%nat)
    by (unfold trajectory; now rewrite length_fmap, recorded_length).
  destruct (lookup_lt_is_Some_2 trajectory 7) as [p Hp]; [lia|].
  destruct (trajectory_lookup cos _ _ _ _ _ _ _ _ _ S Hp) as [T _].
  rewrite iter_next_t in T.
  eexists _, trajectory, p. split; [exact S|]. split; [exact Hlen|].
  split; [exact Hp|]. rewrite T. split; vm_compute; reflexivity.
Qed.

(** With [dt = 0] the loop is never left: [t] stays at 0 and so does the
    ion.  No amount of fuel makes [simulate] return. *)
Lemma zero_dt_never_returns fuel :
  simulate cos fuel (constructor no_params) shell_initial 1 0 = None.
Proof using cos_finite.
  apply simulate_none. change (initial shell_initial) with (at_rest 0).
  induction fuel as [|fuel IH]; [reflexivity|].
  cbn [run]. change (Kin.t (at_rest 0) <? 1) with true. cbv iota.
  unfold next. rewrite (quiet_euler 0 0 eq_refl (or_intror eq_refl)).
  change (outside (at_rest 0)) with false.
  change (tick 0 (at_rest 0)) with (at_rest 0).
  now rewrite IH.
Qed.

End Quiet.

(** The values ECMAScript fixes for [Math.cos], on [cos_approx]. *)
Lemma cos_approx_special_values :
  cos_approx 0 = 1 /\ cos_approx (-0) = 1 /\
  is_nan (cos_approx infinity) = true /\
  is_nan (cos_approx neg_infinity) = true /\
  is_nan (cos_approx nan) = true.
Proof. repeat split. Qed.

(** The first point of the run of [first_point_time_zero], for every
    cosine with [cos 0 = 1]. *)
Lemma first_point_any_cos (cos : float -> float) :
  cos 0 = 1 ->
  simulate cos 2 (constructor preset_optimal) shell_initial 1e-8 1e-8 =
  Some (constructor preset_optimal,
        [ {| Point.t := 0;
             Point.x := 0.99743287271495273;
             Point.y := 1.0025671272850474;
             Point.stable := true |} ]).
Proof.
  intros H. vm_compute. rewrite !H. vm_compute. reflexivity.
Qed.

(** ** More of binary64 arithmetic

    NaN absorbs sums and products and fails every comparison; negation
    commutes with products and quotients; a number whose absolute value is
    below another one is finite. *)

Lemma SFcompare_refl (a : spec_float) :
  a <> S754_nan -> SFcompare a a = Some Eq.
Proof.
  destruct a as [[]|[]| |[] ma ea]; intros H; try reflexivity;
    try (now destruct H); cbn;
    rewrite Z.compare_refl, Pos.compare_cont_refl; reflexivity.
Qed.

Lemma is_nan_spec v : is_nan v = true <-> Prim2SF v = S754_nan.
Proof.
  unfold is_nan. rewrite FloatAxioms.eqb_spec. unfold SFeqb. split.
  - intros H. destruct (Prim2SF v) eqn:E; try reflexivity;
      rewrite SFcompare_refl in H by discriminate; discriminate.
  - intros ->. reflexivity.
Qed.

Lemma is_nan_eq v : is_nan v = true -> v = nan.
Proof.
  intros H. apply Prim2SF_inj. now apply is_nan_spec in H as ->.
Qed.

Lemma add_nan_l a : nan + a = nan.
Proof. apply Prim2SF_inj. rewrite add_spec. reflexivity. Qed.

Lemma add_nan_r a : a + nan = nan.
Proof.
  apply Prim2SF_inj. rewrite add_spec.
  change (Prim2SF nan) with S754_nan. now destruct (Prim2SF a).
Qed.

Lemma mul_nan_r a : a * nan = nan.
Proof.
  apply Prim2SF_inj. rewrite mul_spec.
  change (Prim2SF nan) with S754_nan. now destruct (Prim2SF a).
Qed.

Lemma ltb_nan_l a : (nan <? a) = false.
Proof. rewrite FloatAxioms.ltb_spec. reflexivity. Qed.

Lemma ltb_nan_r a : (a <? nan) = false.
Proof.
  rewrite FloatAxioms.ltb_spec. change (Prim2SF nan) with S754_nan.
  unfold SFltb. now destruct (Prim2SF a).
Qed.

Lemma binary_round_aux_opp s mx ex lx :
  binary_round_aux prec emax (negb s) mx ex lx =
  SFopp (binary_round_aux prec emax s mx ex lx).
Proof.
  unfold binary_round_aux.
  destruct (shr_fexp prec emax mx ex lx) as [mrs e'].
  destruct (shr_fexp prec emax _ e' loc_Exact) as [mrs' e''].
  destruct (shr_m mrs'); try reflexivity.
  now destruct (_ <=? _)%Z.
Qed.

Lemma xorb_negb_l a b : xorb (negb a) b = negb (xorb a b).
Proof. now destruct a, b. Qed.
Lemma xorb_negb_r a b : xorb a (negb b) = negb (xorb a b).
Proof. now destruct a, b. Qed.

Lemma mul_opp_l a b : (- a) * b = - (a * b).
Proof.
  apply Prim2SF_inj. rewrite opp_spec, !mul_spec, opp_spec.
  unfold SF64mul.
  destruct (Prim2SF a) as [sa|sa| |sa ma ea], (Prim2SF b) as [sb|sb| |sb mb eb];
    cbn [SFmul SFopp]; rewrite ?xorb_negb_l; try reflexivity.
  apply binary_round_aux_opp.
Qed.

Lemma mul_opp_r a b : a * (- b) = - (a * b).
Proof.
  apply Prim2SF_inj. rewrite opp_spec, !mul_spec, opp_spec.
  unfold SF64mul.
  destruct (Prim2SF a) as [sa|sa| |sa ma ea], (Prim2SF b) as [sb|sb| |sb mb eb];
    cbn [SFmul SFopp]; rewrite ?xorb_negb_r; try reflexivity.
  apply binary_round_aux_opp.
Qed.

Lemma div_opp_l a b : (- a) / b = - (a / b).
Proof.
  apply Prim2SF_inj. rewrite opp_spec, !div_spec, opp_spec.
  unfold SF64div.
  destruct (Prim2SF a) as [sa|sa| |sa ma ea], (Prim2SF b) as [sb|sb| |sb mb eb];
    cbn [SFdiv SFopp]; rewrite ?xorb_negb_l; try reflexivity.
  destruct (SFdiv_core_binary _ _ _ _ _ _) as [[mz ez] lz].
  apply binary_round_aux_opp.
Qed.

Lemma opp_involutive a : - - a = a.
Proof.
  apply Prim2SF_inj. rewrite !opp_spec.
  destruct (Prim2SF a) as [[]|[]| |[] ma ea]; reflexivity.
Qed.

Lemma eqb_sym a b : (a =? b) = (b =? a).
Proof.
  rewrite !FloatAxioms.eqb_spec. unfold SFeqb.
  rewrite (SFcompare_antisym (Prim2SF b) (Prim2SF a)).
  now destruct (SFcompare (Prim2SF b) (Prim2SF a)) as [[]|].
Qed.

Lemma abs_ltb_finite v c : (abs v <? c) = true -> is_finite v = true.
Proof.
  intros H.
  rewrite FloatAxioms.ltb_spec, FloatAxioms.abs_spec in H.
  unfold is_finite, is_nan, is_infinity in *.
  rewrite !FloatAxioms.eqb_spec, ?FloatAxioms.abs_spec in *.
  change (Prim2SF infinity) with (S754_infinity false) in *.
  unfold SFltb, SFeqb in *.
  destruct (Prim2SF v) as [sv|sv| |sv mv ev] eqn:E; cbn [SFabs] in *.
  - reflexivity.
  - destruct (Prim2SF c) as [sc|[]| |[] mc ec]; cbn in *; discriminate.
  - discriminate.
  - rewrite SFcompare_refl by discriminate. reflexivity.
Qed.

(** ** Runs with no time, bounded runs, runs that never end *)

Section Duration.

Variable cos : float -> float.

(** X1: with at least one unit of fuel, the returned array is empty exactly
    when [0 < t_max] fails (zero, negative or NaN [t_max]); the simulator is
    then left with [lastStablePosition] cleared, whatever [dt] is. *)
Theorem simulate_empty_iff fuel this ic t_max dt this' :
  simulate cos (S fuel) this ic t_max dt = Some (this', []) <->
  (0 <? t_max) = false /\ this' = set_lastStablePosition this None.
Proof.
  split.
  - intros H. apply simulate_inv in H.
    inversion H as [n R E1 E2 | n R E1 E2].
    + destruct n as [|n]; [|discriminate E2].
      destruct (run_time_up _ _ _ _ _ _ _ R) as [_ G].
      split; [exact G | reflexivity].
    + unfold escape_array in E2. symmetry in E2.
      now apply app_cons_not_nil in E2.
  - intros [G ->]. unfold simulate. cbn [simulate_loop].
    change (Kin.t (initial ic)) with 0. now rewrite G.
Qed.

Lemma grid_length_fuel fuel : forall t t_max dt ts,
  grid fuel t t_max dt = Some ts -> (length ts < fuel)%nat.
Proof.
  induction fuel as [|fuel IH]; intros t t_max dt ts H; [discriminate|].
  cbn [grid] in H. destruct (t <? t_max).
  - destruct (grid fuel (t + dt) t_max dt) as [ts'|] eqn:G; [|discriminate].
    injection H as <-. apply IH in G. cbn [length]. lia.
  - injection H as <-. cbn [length]. lia.
Qed.


Lemma run_stuck this t_max dt k :
  next cos this dt k = k ->
  (Kin.t k <? t_max) = true ->
  outside (euler cos this dt k) = false ->
  forall fuel, run cos fuel this t_max dt k = None.
Proof.
  intros Hk G O fuel. induction fuel as [|fuel IH]; [reflexivity|].
  cbn [run]. now rewrite G, O, Hk, IH.
Qed.

Lemma run_stuck_from this t_max dt i : forall k,
  (forall j, (j < i)%nat ->
     (Kin.t (Nat.iter j (next cos this dt) k) <? t_max) = true /\
     outside (euler cos this dt (Nat.iter j (next cos this dt) k)) = false) ->
  next cos this dt (Nat.iter i (next cos this dt) k) =
    Nat.iter i (next cos this dt) k ->
  (Kin.t (Nat.iter i (next cos this dt) k) <? t_max) = true ->
  outside (euler cos this dt (Nat.iter i (next cos this dt) k)) = false ->
  forall fuel, run cos fuel this t_max dt k = None.
Proof.
  induction i as [|i IH]; intros k Hbefore Hk G O fuel.
  - now apply run_stuck.
  - destruct fuel as [|fuel]; [reflexivity|]. cbn [run].
    destruct (Hbefore 0%nat ltac:(lia)) as [G0 O0]. cbn in G0, O0.
    rewrite G0, O0.
    rewrite (IH (next cos this dt k)); [reflexivity | | | |].
    + intros j Hj. rewrite iter_next_r. apply (Hbefore (S j)). lia.
    + now rewrite iter_next_r.
    + now rewrite iter_next_r.
    + now rewrite iter_next_r.
Qed.


(** X4: every returned point was computed at a time below [t_max]: the
    point at index [i] is stamped with [t * 1e6] for the accumulated time
    [t] of iteration [i], and [t < t_max] held.  When the loop is left
    by its guard, the next accumulated time is the first not below
    [t_max]. *)
Theorem recorded_times_below_t_max fuel this ic t_max dt this' trajectory :
  simulate cos fuel this ic t_max dt = Some (this', trajectory) ->
  (forall i p, trajectory !! i = Some p ->
     Point.t p = accumulate i 0 dt * 1e6 /\
     (accumulate i 0 dt <? t_max) = true) /\
  match exit_of cos fuel this ic t_max dt with
  | Some TimeUp => (accumulate (length trajectory) 0 dt <? t_max) = false
  | Some Escape => True
  | None => False
  end.
Proof.
  intros H.
  assert (T : forall i p, trajectory !! i = Some p ->
                Point.t p = accumulate i 0 dt * 1e6).
  { intros i p Hi.
    destruct (trajectory_lookup cos _ _ _ _ _ _ _ _ _ H Hi) as [-> _].
    now rewrite iter_next_t. }
  pose proof (simulate_length cos _ _ _ _ _ _ _ H) as [ex L].
  unfold exit_of. rewrite L. destruct ex.
  - destruct (run_escape _ _ _ _ _ _ _ L) as (n' & E & Hi & Hg & _).
    split; [|exact I]. intros i p Hp. split; [now apply T|].
    pose proof (lookup_lt_Some _ _ _ Hp) as Hlt. rewrite E in Hlt.
    replace (accumulate i 0 dt)
      with (Kin.t (Nat.iter i (next cos this dt) (initial ic)))
      by exact (iter_next_t cos this dt i (initial ic)).
    destruct (Nat.eq_dec i n') as [->|Hne]; [exact Hg|].
    apply Hi. lia.
  - destruct (run_time_up _ _ _ _ _ _ _ L) as [Hi Hg].
    rewrite iter_next_t in Hg. split; [|exact Hg].
    intros i p Hp. split; [now apply T|].
    pose proof (lookup_lt_Some _ _ _ Hp) as Hlt.
    replace (accumulate i 0 dt)
      with (Kin.t (Nat.iter i (next cos this dt) (initial ic)))
      by exact (iter_next_t cos this dt i (initial ic)).
    now apply Hi.
Qed.

End Duration.

Lemma is_finite_SF v : is_finite v = SFfinite (Prim2SF v).
Proof.
  unfold is_finite, is_nan, is_infinity.
  rewrite !FloatAxioms.eqb_spec, FloatAxioms.abs_spec.
  change (Prim2SF infinity) with (S754_infinity false). unfold SFeqb.
  destruct (Prim2SF v) as [sv|sv| |sv mv ev] eqn:E; cbn [SFabs SFfinite];
    try reflexivity.
  all: rewrite SFcompare_refl by discriminate; now destruct sv.
Qed.

Lemma div_finite_l a b : is_finite (a / b) = true -> is_finite a = true.
Proof.
  rewrite !is_finite_SF, div_spec. unfold SF64div.
  destruct (Prim2SF a) as [sa|sa| |sa ma ea]; try reflexivity;
    destruct (Prim2SF b) as [sb|sb| |sb mb eb]; cbn; congruence.
Qed.

(** ** The two series of the chart and the reference dot *)

Section Chart.

Variable cos : float -> float.

Lemma stable_series_points ks :
  stable_series (point <$> ks) = point <$> ks /\
  unstable_series (point <$> ks) = [].
Proof.
  unfold stable_series, unstable_series.
  induction ks as [|k ks [IH1 IH2]]; [now split|].
  cbn. rewrite IH1, IH2. now split.
Qed.

Lemma series_escape_array this dt k n :
  stable_series (escape_array cos this dt k n) =
    point <$> recorded cos this dt n k /\
  unstable_series (escape_array cos this dt k n) =
    [mark_unstable (point (euler cos this dt
                             (Nat.iter n (next cos this dt) k)))].
Proof.
  destruct (stable_series_points (recorded cos this dt n k)) as [E1 E2].
  unfold escape_array, stable_series, unstable_series in *.
  rewrite !List.filter_app, E1, E2. cbn. now rewrite app_nil_r.
Qed.

(** X5: the two [filter] calls split a returned array without losing or
    reordering a point: the stable series followed by the unstable series
    is the array.  The unstable series has at most one point, the last of
    the array. *)
Theorem series_partition fuel this ic t_max dt this' trajectory :
  simulate cos fuel this ic t_max dt = Some (this', trajectory) ->
  stable_series trajectory ++ unstable_series trajectory = trajectory /\
  (unstable_series trajectory = [] \/
   exists p, unstable_series trajectory = [p] /\ last trajectory = Some p).
Proof.
  intros H. apply simulate_inv in H. destruct H as [n R|n R].
  - destruct (stable_series_points (recorded cos this dt n (initial ic)))
      as [-> ->].
    split; [apply app_nil_r | now left].
  - destruct (series_escape_array this dt (initial ic) n) as [-> ->].
    split; [reflexivity|]. right. eexists. split; [reflexivity|].
    unfold escape_array. apply last_snoc.
Qed.

(** X6: what [runSimulation] hands to the chart is consistent.  The
    reference dot is drawn exactly when the unstable series is not empty.
    It then sits on the last point of the stable series, or, when the
    array has a single point, on the unstable point itself. *)
Theorem reference_dot_marks_escape fuel params trajectory verdict
    lastStablePoint :
  runSimulation cos fuel params = Some (trajectory, verdict, lastStablePoint) ->
  (is_Some (reference_dot lastStablePoint) <->
   unstable_series trajectory <> []) /\
  match lastStablePoint with
  | None => stable_series trajectory = trajectory
  | Some q =>
      reference_dot lastStablePoint = Some (Point.x q, Point.y q) /\
      if decide (length trajectory = 1%nat)
      then unstable_series trajectory = [q] /\ stable_series trajectory = []
      else last (stable_series trajectory) = Some q /\
           Point.stable q = true
  end.
Proof.
  unfold runSimulation. intros H.
  destruct (simulate cos fuel (constructor params) shell_initial
              shell_t_max shell_dt) as [[this' tr]|] eqn:S; [|discriminate].
  injection H as <- _ <-. apply simulate_inv in S.
  destruct S as [n R|n R]; cbn [Sim.lastStablePosition set_lastStablePosition].
  - destruct (stable_series_points
                (recorded cos (constructor params) shell_dt n
                   (initial shell_initial))) as [-> ->].
    split; [|reflexivity]. cbn. split; [intros [? [=]] | congruence].
  - destruct (series_escape_array (constructor params) shell_dt
                (initial shell_initial) n) as [E1 E2].
    rewrite E1, E2, escape_array_length.
    destruct (lookup_lt_is_Some_2
                (escape_array cos (constructor params) shell_dt
                   (initial shell_initial) n) (n - 1)) as [q Hq];
      [rewrite escape_array_length; lia|].
    rewrite Hq. split; [split; [discriminate | intros _; now eexists]|].
    split; [reflexivity|].
    unfold escape_array in Hq. destruct n as [|n].
    + cbn in Hq. injection Hq as <-. now rewrite decide_True by reflexivity.
    + rewrite decide_False by lia.
      rewrite lookup_app_l in Hq
        by (rewrite length_fmap, recorded_length; lia).
      split; [|exact (point_stable _ _ _ Hq)].
      rewrite last_lookup, length_fmap, recorded_length.
      rewrite <- Hq. f_equal. lia.
Qed.

End Chart.

(** ** What the optional parameters can and cannot bring in *)

Lemma or_default_not_nan o d :
  is_nan d = false -> is_nan (JS.or_default o d) = false.
Proof.
  intros Hd. destruct o as [a|]; cbn; [|exact Hd].
  unfold JS.falsy. destruct (a =? 0); cbn; [exact Hd|].
  now destruct (is_nan a) eqn:Ha.
Qed.

(** X7: no NaN enters through an optional parameter: the [U], [V] and
    [omega] of a constructed simulator and the initial [x], [y], [vx], [vy]
    of a run are numbers, whatever was supplied, and the run starts at
    [t = 0]. *)
Theorem optional_inputs_never_nan params ic :
  is_nan (Sim.U (constructor params)) = false /\
  is_nan (Sim.V (constructor params)) = false /\
  is_nan (Sim.omega (constructor params)) = false /\
  is_nan (Kin.x (initial ic)) = false /\
  is_nan (Kin.y (initial ic)) = false /\
  is_nan (Kin.vx (initial ic)) = false /\
  is_nan (Kin.vy (initial ic)) = false /\
  Kin.t (initial ic) = 0.
Proof.
  repeat split; try (apply or_default_not_nan; reflexivity).
Qed.

Lemma or_default_zero_eqb u :
  is_nan u = false -> (JS.or_default (Some u) 0 =? u) = true.
Proof.
  intros Hu. cbn. unfold JS.falsy. rewrite Hu, orb_false_r.
  destruct (u =? 0) eqn:E.
  - now rewrite eqb_sym.
  - unfold is_nan in Hu. now apply negb_false_iff in Hu.
Qed.

(** X8: for the parameters whose default is 0 the substitution never
    changes the value: a supplied [U], [V], [vx] or [vy] that is a number
    is kept up to [==] (a supplied [0] or [-0] becomes [0]).  *)
Theorem zero_default_keeps_value u U V omega x y vx vy :
  is_nan u = false ->
  (Sim.U (constructor (Params.mk (Some u) V omega)) =? u) = true /\
  (Sim.V (constructor (Params.mk U (Some u) omega)) =? u) = true /\
  (Kin.vx (initial (Init.mk x y (Some u) vy)) =? u) = true /\
  (Kin.vy (initial (Init.mk x y vx (Some u))) =? u) = true.
Proof.
  intros Hu. repeat split; now apply or_default_zero_eqb.
Qed.

(** [zero_default_keeps_value] at the [U = 0] of the "Pure RF" preset. *)
Lemma zero_default_keeps_value_witness :
  is_nan 0 = false /\
  (Sim.U (constructor (Params.mk (Some 0) (Some 15.0) (Some 15e6))) =? 0)
    = true /\
  (Sim.V (constructor (Params.mk (Some 0) (Some 0) (Some 15e6))) =? 0)
    = true /\
  (Kin.vx (initial (Init.mk (Some 1e-3) (Some 1e-3) (Some 0) (Some 0))) =? 0)
    = true /\
  (Kin.vy (initial (Init.mk (Some 1e-3) (Some 1e-3) (Some 0) (Some 0))) =? 0)
    = true.
Proof.
  split; [reflexivity|].
  exact (zero_default_keeps_value 0 (Some 0) (Some 15.0) (Some 15e6)
           (Some 1e-3) (Some 1e-3) (Some 0) (Some 0) eq_refl).
Defined.

(** ** The quadrupole field *)

Section Field.

Variable cos : float -> float.

(** X9: at the same displacement and time the forces along [x] and [y] are
    opposite, and so are the accelerations [f / m]; each force is odd in
    the displacement.  The equalities are exact in binary64, also when a
    value is infinite or NaN. *)
Theorem force_antisymmetric this v t :
  calculateForceX cos this v t = - calculateForceY cos this v t /\
  calculateForceY cos this v t = - calculateForceX cos this v t /\
  calculateForceX cos this v t / m = - (calculateForceY cos this v t / m) /\
  calculateForceX cos this (- v) t = - calculateForceX cos this v t /\
  calculateForceY cos this (- v) t = - calculateForceY cos this v t.
Proof.
  assert (E : calculateForceX cos this v t = - calculateForceY cos this v t).
  { unfold calculateForceX, calculateForceY. now rewrite !mul_opp_l. }
  split; [exact E|]. split; [now rewrite E, opp_involutive|].
  split; [now rewrite E, div_opp_l|].
  unfold calculateForceX, calculateForceY. now rewrite !mul_opp_r.
Qed.

End Field.

(** ** A stable verdict needs finite numbers *)

(** X10: [isStable] answers [true] only when the four coefficients are
    finite (neither infinite nor NaN) and, if an escape was recorded, the
    recorded position is finite as well. *)
Theorem isStable_true_finite this :
  isStable this = true ->
  is_finite (Sim.qx this) = true /\ is_finite (Sim.ax this) = true /\
  is_finite (Sim.qy this) = true /\ is_finite (Sim.ay this) = true /\
  match Sim.lastStablePosition this with
  | Some p => is_finite (Point.x p) = true /\ is_finite (Point.y p) = true
  | None => True
  end.
Proof.
  unfold isStable. intros H.
  apply andb_true_iff in H as [Ht Hp].
  apply andb_true_iff in Ht as [Hx Hy].
  apply andb_true_iff in Hx as [Hqx Hax].
  apply andb_true_iff in Hy as [Hqy Hay].
  split; [exact (abs_ltb_finite _ _ Hqx)|].
  split; [exact (abs_ltb_finite _ _ Hax)|].
  split; [exact (abs_ltb_finite _ _ Hqy)|].
  split; [exact (abs_ltb_finite _ _ Hay)|].
  destruct (Sim.lastStablePosition this) as [p|]; [|exact I].
  apply andb_true_iff in Hp as [Hpx Hpy].
  split; eapply div_finite_l, abs_ltb_finite; eassumption.
Qed.

(** [isStable_true_finite] on the fresh "Optimal Trapping" simulator. *)
Lemma isStable_true_finite_witness :
  isStable (constructor preset_optimal) = true /\
  is_finite (Sim.qx (constructor preset_optimal)) = true /\
  is_finite (Sim.ax (constructor preset_optimal)) = true /\
  is_finite (Sim.qy (constructor preset_optimal)) = true /\
  is_finite (Sim.ay (constructor preset_optimal)) = true /\
  match Sim.lastStablePosition (constructor preset_optimal) with
  | Some p => is_finite (Point.x p) = true /\ is_finite (Point.y p) = true
  | None => True
  end.
Proof.
  split; [reflexivity|].
  exact (isStable_true_finite (constructor preset_optimal) eq_refl).
Defined.

(** ** NaN in the loop *)

Lemma mul_nan_l a : nan * a = nan.
Proof. apply Prim2SF_inj. rewrite mul_spec. reflexivity. Qed.

Section NaN.

Variable cos : float -> float.

Lemma euler_nan_position this dt k :
  is_nan (Kin.x k) = true -> is_nan (Kin.y k) = true ->
  is_nan (Kin.x (euler cos this dt k)) = true /\
  is_nan (Kin.y (euler cos this dt k)) = true.
Proof.
  intros Hx Hy. apply is_nan_eq in Hx, Hy.
  unfold euler. cbn [Kin.x Kin.y]. rewrite Hx, Hy, !add_nan_l. now split.
Qed.

Lemma outside_nan k :
  is_nan (Kin.x k) = true -> is_nan (Kin.y k) = true -> outside k = false.
Proof.
  intros Hx Hy. apply is_nan_eq in Hx, Hy. unfold outside.
  rewrite Hx, Hy. change (abs nan) with nan. now rewrite ltb_nan_r.
Qed.

Lemma moved_nan_persists this dt ic i :
  is_nan (Kin.x (moved cos this dt ic i)) = true ->
  is_nan (Kin.y (moved cos this dt ic i)) = true ->
  forall d,
    is_nan (Kin.x (moved cos this dt ic (i + d))) = true /\
    is_nan (Kin.y (moved cos this dt ic (i + d))) = true.
Proof.
  intros Hx Hy d. induction d as [|d [IHx IHy]].
  - rewrite Nat.add_0_r. now split.
  - rewrite Nat.add_succ_r. apply euler_nan_position; assumption.
Qed.

(** X11: a position that is NaN on both axes is never taken for an escape.
    If the ion stays in bounds before iteration [i] and that iteration
    computes NaN for [x] and [y], the returned run records no escape, and
    every point from index [i] on has NaN coordinates and is flagged
    stable. *)
Theorem nan_position_never_escapes fuel this ic t_max dt this' trajectory i :
  simulate cos fuel this ic t_max dt = Some (this', trajectory) ->
  (forall j, (j < i)%nat -> outside (moved cos this dt ic j) = false) ->
  is_nan (Kin.x (moved cos this dt ic i)) = true ->
  is_nan (Kin.y (moved cos this dt ic i)) = true ->
  exit_of cos fuel this ic t_max dt = Some TimeUp /\
  Sim.lastStablePosition this' = None /\
  forall j p, (i <= j)%nat -> trajectory !! j = Some p ->
    Point.x p = nan /\ Point.y p = nan /\ Point.stable p = true.
Proof.
  intros H Hbefore Hx Hy.
  assert (N : forall j, (i <= j)%nat ->
                is_nan (Kin.x (moved cos this dt ic j)) = true /\
                is_nan (Kin.y (moved cos this dt ic j)) = true).
  { intros j Hj. replace j with (i + (j - i))%nat by lia.
    now apply moved_nan_persists. }
  apply simulate_inv in H. destruct H as [n R|n R]; unfold exit_of; rewrite R.
  - split; [reflexivity|]. split; [reflexivity|].
    intros j p Hj Hp.
    pose proof (lookup_lt_Some _ _ _ Hp) as Hlt.
    rewrite length_fmap, recorded_length in Hlt.
    rewrite list_lookup_fmap, recorded_lookup in Hp by exact Hlt.
    injection Hp as <-. destruct (N j Hj) as [Nx Ny].
    apply is_nan_eq in Nx, Ny. unfold moved in Nx, Ny.
    unfold point. cbn [Point.x Point.y Point.stable].
    rewrite Nx, Ny, mul_nan_l. now repeat split.
  - exfalso.
    destruct (run_escape _ _ _ _ _ _ _ R) as (n' & [= <-] & _ & _ & Ho).
    destruct (Nat.lt_ge_cases n i) as [Hlt|Hge].
    + specialize (Hbefore n Hlt). unfold moved in Hbefore. congruence.
    + destruct (N n Hge) as [Nx Ny].
      pose proof (outside_nan _ Nx Ny) as O. unfold moved in O. congruence.
Qed.

Lemma euler_nan_dt this k :
  euler cos this nan k = Kin.mk nan nan nan nan (Kin.t k).
Proof.
  unfold euler. cbv zeta. now rewrite !mul_nan_r, !add_nan_r.
Qed.

(** X12: with a NaN [dt] and [0 < t_max] the loop runs once: the returned
    array is the single point [{t: 0, x: NaN, y: NaN, stable: true}] and no
    escape is recorded, for every simulator and initial condition. *)
Theorem nan_dt_single_point fuel this ic t_max :
  (0 <? t_max) = true ->
  simulate cos (S (S fuel)) this ic t_max nan =
  Some (set_lastStablePosition this None, [nan_point]).
Proof.
  intros G.
  assert (R : run cos (S (S fuel)) this t_max nan (initial ic) =
              Some (TimeUp, 1%nat)).
  { cbn [run]. change (Kin.t (initial ic)) with 0. rewrite G.
    unfold next. rewrite euler_nan_dt.
    change (outside (Kin.mk nan nan nan nan 0)) with false. cbv iota.
    change (Kin.t (tick nan (Kin.mk nan nan nan nan 0))) with nan.
    now rewrite ltb_nan_l. }
  rewrite (simulate_time_up _ _ _ _ _ _ _ R).
  cbn [recorded fmap list_fmap]. now rewrite euler_nan_dt.
Qed.

End NaN.

(** ** The further theorems at concrete runs *)



(** [recorded_times_below_t_max] on the run of [dc_params]. *)
Lemma recorded_times_below_t_max_witness :
  simulate cos_approx 8 (constructor dc_params)
    shell_initial shell_t_max shell_dt =
  Some (dc_run_simulator, dc_run_trajectory) /\
  (forall i p, dc_run_trajectory !! i = Some p ->
     Point.t p = accumulate i 0 shell_dt * 1e6 /\
     (accumulate i 0 shell_dt <? shell_t_max) = true) /\
  match exit_of cos_approx 8 (constructor dc_params)
          shell_initial shell_t_max shell_dt with
  | Some TimeUp =>
      (accumulate (length dc_run_trajectory) 0 shell_dt <? shell_t_max) = false
  | Some Escape => True
  | None => False
  end.
Proof.
  assert (H : simulate cos_approx 8 (constructor dc_params)
                shell_initial shell_t_max shell_dt =
              Some (dc_run_simulator, dc_run_trajectory))
    by (vm_compute; reflexivity).
  split; [exact H|].
  exact (recorded_times_below_t_max cos_approx 8 (constructor dc_params)
           shell_initial shell_t_max shell_dt
           dc_run_simulator dc_run_trajectory H).
Defined.

(** [series_partition] on the run of [dc_params]. *)
Lemma series_partition_witness :
  simulate cos_approx 8 (constructor dc_params)
    shell_initial shell_t_max shell_dt =
  Some (dc_run_simulator, dc_run_trajectory) /\
  stable_series dc_run_trajectory ++ unstable_series dc_run_trajectory =
    dc_run_trajectory /\
  (unstable_series dc_run_trajectory = [] \/
   exists p, unstable_series dc_run_trajectory = [p] /\
             last dc_run_trajectory = Some p).
Proof.
  assert (H : simulate cos_approx 8 (constructor dc_params)
                shell_initial shell_t_max shell_dt =
              Some (dc_run_simulator, dc_run_trajectory))
    by (vm_compute; reflexivity).
  split; [exact H|].
  exact (series_partition cos_approx 8 (constructor dc_params)
           shell_initial shell_t_max shell_dt
           dc_run_simulator dc_run_trajectory H).
Defined.

(** [reference_dot_marks_escape] on what the shell shows for [dc_params]. *)
Lemma reference_dot_marks_escape_witness :
  runSimulation cos_approx 8 dc_params =
  Some (dc_run_trajectory, isStable dc_run_simulator,
        Sim.lastStablePosition dc_run_simulator) /\
  (is_Some (reference_dot (Sim.lastStablePosition dc_run_simulator)) <->
   unstable_series dc_run_trajectory <> []) /\
  match Sim.lastStablePosition dc_run_simulator with
  | None => stable_series dc_run_trajectory = dc_run_trajectory
  | Some q =>
      reference_dot (Sim.lastStablePosition dc_run_simulator) =
      Some (Point.x q, Point.y q) /\
      if decide (length dc_run_trajectory = 1%nat)
      then unstable_series dc_run_trajectory = [q] /\
           stable_series dc_run_trajectory = []
      else last (stable_series dc_run_trajectory) = Some q /\
           Point.stable q = true
  end.
Proof.
  assert (H : runSimulation cos_approx 8 dc_params =
              Some (dc_run_trajectory, isStable dc_run_simulator,
                    Sim.lastStablePosition dc_run_simulator))
    by (vm_compute; reflexivity).
  split; [exact H|].
  exact (reference_dot_marks_escape cos_approx 8 dc_params
           dc_run_trajectory (isStable dc_run_simulator)
           (Sim.lastStablePosition dc_run_simulator) H).
Defined.

(** [nan_position_never_escapes] on the run with [huge_dt], whose second
    iteration computes NaN. *)
Lemma nan_position_never_escapes_witness :
  simulate cos_approx 4 (constructor no_params)
    shell_initial huge_t_max huge_dt =
  Some (nan_run_simulator, nan_run_trajectory) /\
  (forall j, (j < 1)%nat ->
     outside (moved cos_approx (constructor no_params) huge_dt
                shell_initial j) = false) /\
  is_nan (Kin.x (moved cos_approx (constructor no_params) huge_dt
                   shell_initial 1)) = true /\
  is_nan (Kin.y (moved cos_approx (constructor no_params) huge_dt
                   shell_initial 1)) = true /\
  exit_of cos_approx 4 (constructor no_params)
    shell_initial huge_t_max huge_dt = Some TimeUp /\
  Sim.lastStablePosition nan_run_simulator = None /\
  forall j p, (1 <= j)%nat -> nan_run_trajectory !! j = Some p ->
    Point.x p = nan /\ Point.y p = nan /\ Point.stable p = true.
Proof.
  assert (H : simulate cos_approx 4 (constructor no_params)
                shell_initial huge_t_max huge_dt =
              Some (nan_run_simulator, nan_run_trajectory))
    by (vm_compute; reflexivity).
  assert (B : forall j, (j < 1)%nat ->
                outside (moved cos_approx (constructor no_params) huge_dt
                           shell_initial j) = false).
  { intros j Hj. replace j with 0%nat by lia. vm_compute. reflexivity. }
  assert (Nx : is_nan (Kin.x (moved cos_approx (constructor no_params)
                                huge_dt shell_initial 1)) = true)
    by (vm_compute; reflexivity).
  assert (Ny : is_nan (Kin.y (moved cos_approx (constructor no_params)
                                huge_dt shell_initial 1)) = true)
    by (vm_compute; reflexivity).
  split; [exact H|]. split; [exact B|]. split; [exact Nx|]. split; [exact Ny|].
  exact (nan_position_never_escapes cos_approx 4 (constructor no_params)
           shell_initial huge_t_max huge_dt
           nan_run_simulator nan_run_trajectory 1 H B Nx Ny).
Defined.

(** [nan_dt_single_point] on the shell's arguments with [dt] replaced. *)
Lemma nan_dt_single_point_witness :
  (0 <? shell_t_max) = true /\
  simulate cos_approx 2 (constructor preset_optimal)
    shell_initial shell_t_max nan =
  Some (set_lastStablePosition (constructor preset_optimal) None,
        [nan_point]).
Proof.
  split; [reflexivity|].
  exact (nan_dt_single_point cos_approx 0 (constructor preset_optimal)
           shell_initial shell_t_max eq_refl).
Defined.

(** ** When an escape is recorded *)

Section Recorded.

Variable cos : float -> float.

(** X13: after a returned run [lastStablePosition] is set exactly when some
    iteration, reached with the guard true and every earlier position in
    bounds, moves the ion out of bounds; the array then ends with the point
    of that iteration. *)
Theorem escape_recorded_iff fuel this ic t_max dt this' trajectory :
  simulate cos fuel this ic t_max dt = Some (this', trajectory) ->
  (is_Some (Sim.lastStablePosition this') <->
   exists n,
     (forall i, (i < n)%nat ->
        (accumulate i 0 dt <? t_max) = true /\
        outside (moved cos this dt ic i) = false) /\
     (accumulate n 0 dt <? t_max) = true /\
     outside (moved cos this dt ic n) = true /\
     length trajectory = S n).
Proof.
  intros H.
  assert (T : forall i,
            Kin.t (Nat.iter i (next cos this dt) (initial ic)) =
            accumulate i 0 dt)
    by (intros i; apply iter_next_t).
  apply simulate_inv in H. destruct H as [n R|n R];
    cbn [Sim.lastStablePosition set_lastStablePosition].
  - destruct (run_time_up _ _ _ _ _ _ _ R) as [Hi Hg].
    rewrite T in Hg. split; [intros [? [=]]|].
    intros (k & Hk & Gk & Ok & _). exfalso.
    destruct (Nat.lt_trichotomy k n) as [Hlt|[->|Hgt]].
    + destruct (Hi k Hlt) as [_ O]. unfold moved in Ok. congruence.
    + congruence.
    + destruct (Hk n Hgt) as [G _]. congruence.
  - destruct (run_escape _ _ _ _ _ _ _ R) as (n' & [= <-] & Hi & Hg & Ho).
    split.
    + intros _. exists n. rewrite <- !T.
      split; [intros i Hlt; rewrite <- T; now apply Hi|].
      split; [exact Hg|]. split; [exact Ho|]. apply escape_array_length.
    + intros _. apply lookup_lt_is_Some. rewrite escape_array_length. lia.
Qed.

End Recorded.

(** [escape_recorded_iff] on the run of [dc_params]. *)
Lemma escape_recorded_iff_witness :
  simulate cos_approx 8 (constructor dc_params)
    shell_initial shell_t_max shell_dt =
  Some (dc_run_simulator, dc_run_trajectory) /\
  (is_Some (Sim.lastStablePosition dc_run_simulator) <->
   exists n,
     (forall i, (i < n)%nat ->
        (accumulate i 0 shell_dt <? shell_t_max) = true /\
        outside (moved cos_approx (constructor dc_params) shell_dt
                   shell_initial i) = false) /\
     (accumulate n 0 shell_dt <? shell_t_max) = true /\
     outside (moved cos_approx (constructor dc_params) shell_dt
                shell_initial n) = true /\
     length dc_run_trajectory = S n).
Proof.
  assert (H : simulate cos_approx 8 (constructor dc_params)
                shell_initial shell_t_max shell_dt =
              Some (dc_run_simulator, dc_run_trajectory))
    by (vm_compute; reflexivity).
  split; [exact H|].
  exact (escape_recorded_iff cos_approx 8 (constructor dc_params)
           shell_initial shell_t_max shell_dt
           dc_run_simulator dc_run_trajectory H).
Defined.

(** ** Errors

    No call of the class throws.  What can go wrong instead is silent: a
    division by zero in the constructor, and a loop that is never left. *)

Lemma array_get_in_range trajectory i :
  (i < length trajectory)%nat ->
  array_get trajectory (Z.of_nat i) = ref_of_field (trajectory !! i) /\
  is_Some (trajectory !! i).
Proof.
  intros Hi. unfold array_get.
  destruct (Z.ltb_spec (Z.of_nat i) 0) as [Hneg|_]; [lia|].
  rewrite Nat2Z.id.
  destruct (lookup_lt_is_Some_2 trajectory i Hi) as [p ->]. now split; [|eexists].
Qed.

Section Errors.

Variable cos : float -> float.

Lemma simulate_loop_checked_spec fuel this t_max dt : forall k trajectory,
  simulate_loop_checked cos fuel this t_max dt k trajectory =
  match simulate_loop cos fuel this t_max dt k trajectory with
  | Some (returned, lsp) => Some (Normal (returned, ref_of_field lsp))
  | None => None
  end.
Proof.
  induction fuel as [|fuel IH]; intros k trajectory; [reflexivity|].
  cbn [simulate_loop_checked simulate_loop].
  destruct (Kin.t k <? t_max); [|reflexivity].
  destruct (outside (euler cos this dt k)); [|apply IH].
  set (tr := trajectory ++ [point (euler cos this dt k)]).
  assert (L : (1 <= length tr)%nat)
    by (unfold tr; rewrite length_app; cbn [length]; lia).
  cbv zeta.
  replace (Z.of_nat (length tr) - 1)%Z with (Z.of_nat (length tr - 1)) by lia.
  destruct (array_get_in_range tr (length tr - 1) ltac:(lia)) as [-> [p ->]].
  cbn [ref_of_field]. rewrite Nat2Z.id, length_alter.
  replace (Z.max 0 (Z.of_nat (length tr) - 2))
    with (Z.of_nat (Nat.max 0 (length tr - 2))) by lia.
  destruct (array_get_in_range (alter mark_unstable (length tr - 1)%nat tr)
              (Nat.max 0 (length tr - 2))) as [-> _];
    [rewrite length_alter; lia|].
  rewrite Nat2Z.id. reflexivity.
Qed.


End Errors.

